(** * deepseek-checker: the change-detection pipeline of [src/index.ts]

    A shallow embedding of the Cloudflare worker in [src/index.ts]:
    the page parser ([fetchPageData]), the concurrent script download with
    hash stripping ([fetchJsContents]), the token differ ([generateDiff]),
    the summariser client ([getAIPatchSummary]), the notifier
    ([sendDiscordNotification]) and the orchestrator ([checkTask]).

    JavaScript strings are sequences of UTF-16 code units; [.length],
    [substring], the regular expressions of the source (none carries the [u]
    flag) and string equality all work on code units, so a string is a
    [list N] here.  The key-value namespace [MONITOR_KV] is a finite map
    from key names to strings.  The outside world (the target site, the
    text-generation endpoint, the webhook, the order in which concurrent
    downloads complete) is a record of answers, [World], and every effect a
    run performs is appended to a trace of [Event]s. *)

From Stdlib Require Import NArith List Ascii String Lia Permutation.
From stdpp Require Import base option list gmap strings.

Local Open Scope N_scope.
Local Open Scope list_scope.
Local Open Scope nat_scope.

(** ** JavaScript strings *)

Abbreviation jsstring := (list N).

(** An ASCII literal of the source, as code units. *)
Definition lit (s : string) : jsstring :=
  map N_of_ascii (list_ascii_of_string s).

Definition QUOTE : N := 34.      (* the double quote *)
Definition DASH : N := 45.       (* - *)
Definition NEWLINE : N := 10.

Definition in_range (lo hi c : N) : bool := (lo <=? c)%N && (c <=? hi)%N.

(** [s.startsWith(p)]: the literal part of a regular expression matched at
    the head of [s]. *)
Fixpoint starts_with (p s : jsstring) : bool :=
  match p, s with
  | [], _ => true
  | a :: p', b :: s' => (a =? b)%N && starts_with p' s'
  | _ :: _, [] => false
  end.

Definition jsstring_eqb (a b : jsstring) : bool := bool_decide (a = b).

(** A JavaScript value used as a condition: [null], [undefined] and the
    empty string are falsy, every other string is truthy. *)
Definition truthy (v : option jsstring) : bool :=
  match v with
  | Some (_ :: _) => true
  | _ => false
  end.

(** ** Content normalizer: [path.replace(/-[a-f0-9]{16,}\.js$/, '.js')] *)

(** The class [[a-f0-9]] of the source: digits and lower-case a to f. *)
Definition is_hash_char (c : N) : bool :=
  in_range 97 102 c || in_range 48 57 c.

Definition DOT_JS : jsstring := lit ".js".

(** Does [/-[a-f0-9]{16,}\.js$/] match with its first character at the head
    of [s]?  The hash run is followed by a dot, which is no hash character,
    so the greedy run is the only candidate: [s] is a dash, then at least
    sixteen hash characters, then [.js], then the end of the string. *)
Definition hash_suffix_at (s : jsstring) : bool :=
  match s with
  | [] => false
  | c :: t =>
      let n := (length t - 3)%nat in
      (c =? DASH)%N && (16 <=? n)%nat
      && forallb is_hash_char (take n t) && jsstring_eqb (drop n t) DOT_JS
  end.

(** [replace] rewrites the leftmost match; the match runs to the end of the
    string, so what follows the kept prefix is the replacement [.js]. *)
Fixpoint strip_hash (path : jsstring) : jsstring :=
  if hash_suffix_at path then DOT_JS
  else match path with
       | [] => []
       | c :: rest => c :: strip_hash rest
       end.

(** The paths the pattern rewrites: some name, a dash, sixteen or more
    characters of the class [[a-f0-9]], then [.js] at the very end. *)
Definition has_hash_suffix (path : jsstring) : Prop :=
  exists name h, path = name ++ DASH :: h ++ DOT_JS
                 /\ (16 <= length h)%nat /\ forallb is_hash_char h = true.

(** ** Page parser: the two regular expressions of [fetchPageData] *)

(** In the patterns below Q stands for the double quote character.

    [[^Q]+Q]: the characters up to the next double quote, and what follows
    that quote; [None] when no quote follows. *)
Fixpoint until_quote (s : jsstring) : option (jsstring * jsstring) :=
  match s with
  | [] => None
  | c :: s' =>
      if (c =? QUOTE)%N then Some ([], s')
      else match until_quote s' with
           | Some (run, rest) => Some (c :: run, rest)
           | None => None
           end
  end.

(** The literal [QbuildIdQ:Q] that opens the build marker. *)
Definition BUILD_ID_OPEN : jsstring :=
  QUOTE :: lit "buildId" ++ [QUOTE; 58%N; QUOTE].

(** [/QbuildIdQ:Q([^Q]+)Q/] matched with its first character at the head of
    [s]; the result is the capture group.  The group is one or more
    characters other than the quote and is closed by a quote, so it is the
    whole run up to the next quote, and that run must not be empty. *)
Definition buildId_at (s : jsstring) : option jsstring :=
  if starts_with BUILD_ID_OPEN s then
    match until_quote (drop (length BUILD_ID_OPEN) s) with
    | Some (c :: token, _) => Some (c :: token)
    | _ => None
    end
  else None.

(** [html.match(/QbuildIdQ:Q([^Q]+)Q/)], then [buildIdMatch[1]] or [null]:
    the capture of the leftmost match. *)
Fixpoint match_buildId (html : jsstring) : option jsstring :=
  match buildId_at html with
  | Some token => Some token
  | None => match html with
            | [] => None
            | _ :: rest => match_buildId rest
            end
  end.

Definition SCRIPT_OPEN : jsstring := lit "src=" ++ [QUOTE].
Definition CHUNK_DIR : jsstring := lit "/_next/static/chunks/".

Definition ends_with_js (run : jsstring) : bool :=
  jsstring_eqb (drop (length run - 3) run) DOT_JS.

(** [/src=Q(\/_next\/static\/chunks\/[^Q]+\.js)Q/] matched at the head of
    [s]: the capture group and the length of the whole match.  After the
    directory comes a run without quotes, closed by a quote; backtracking
    places [\.js] on the last three characters of that run and leaves at
    least one character for [[^Q]+] before them. *)
Definition script_at (s : jsstring) : option (jsstring * nat) :=
  if starts_with (SCRIPT_OPEN ++ CHUNK_DIR) s then
    match until_quote (drop (length (SCRIPT_OPEN ++ CHUNK_DIR)) s) with
    | Some (run, _) =>
        if (3 <? length run)%nat && ends_with_js run
        then Some (CHUNK_DIR ++ run,
                   (length (SCRIPT_OPEN ++ CHUNK_DIR) + length run + 1)%nat)
        else None
    | None => None
    end
  else None.

(** [[...html.matchAll(scriptRegex)].map(m => m[1])]: the captures of all
    matches, left to right; after a match the search resumes behind it
    ([skip] counts the characters of the current match still to pass). *)
Fixpoint scan_scripts (skip : nat) (html : jsstring) : list jsstring :=
  match html with
  | [] => []
  | _ :: rest =>
      match skip with
      | S k => scan_scripts k rest
      | O => match script_at html with
             | Some (path, len) => path :: scan_scripts (len - 1) rest
             | None => scan_scripts 0 rest
             end
      end
  end.

Definition match_scripts (html : jsstring) : list jsstring :=
  scan_scripts 0 html.

(** What [fetchPageData] returns; the source also returns the markup, which
    no caller reads. *)
Record PageData := {
  pd_buildId : option jsstring;
  pd_scriptPaths : list jsstring;
}.

Definition parsePage (html : jsstring) : PageData :=
  {| pd_buildId := match_buildId html; pd_scriptPaths := match_scripts html |}.

(** A page in the shape of the target site, for the examples. *)
Definition sample_html (buildId : string) (scripts : list string) : jsstring :=
  lit "<html><head>"
  ++ flat_map (fun p => lit "<script src=" ++ [QUOTE] ++ lit p ++ [QUOTE]
                        ++ lit "></script>") scripts
  ++ lit "</head><body><script>{" ++ [QUOTE] ++ lit "buildId" ++ [QUOTE; 58%N; QUOTE]
  ++ lit buildId ++ [QUOTE] ++ lit "}</script></body></html>".

(** ** Script maps: [Record<string, string>] *)

(** A JavaScript object used as a map from module names to contents, as the
    list of its entries in the order [Object.entries] lists them, which for
    the keys met here (paths, never array indices) is the order in which
    the keys were first assigned.  Lookups read own properties. *)
Abbreviation Files := (list (jsstring * jsstring)).

(** [files[key]], with [None] for [undefined]. *)
Fixpoint files_get (files : Files) (key : jsstring) : option jsstring :=
  match files with
  | [] => None
  | (k, v) :: rest => if jsstring_eqb k key then Some v else files_get rest key
  end.

(** [files[key] = value]: an existing key keeps its place and takes the new
    value, a new key goes last. *)
Fixpoint files_set (files : Files) (key value : jsstring) : Files :=
  match files with
  | [] => [(key, value)]
  | (k, v) :: rest =>
      if jsstring_eqb k key then (k, value) :: rest
      else (k, v) :: files_set rest key value
  end.

(** ** Differ: [generateDiff] *)

(** The class [[a-zA-Z0-9_'Q一-龥]] whose complement separates
    tokens. *)
Definition is_token_char (c : N) : bool :=
  in_range 97 122 c || in_range 65 90 c || in_range 48 57 c
  || (c =? 95)%N || (c =? 39)%N || (c =? QUOTE)%N
  || in_range 0x4e00 0x9fa5 c.

(** [str.split(/[^a-zA-Z0-9_'Q一-龥]+/)]: the pieces between the
    maximal runs of separators.  [acc] holds the current piece reversed and
    [in_sep] tells that the previous character was a separator.  A string
    that starts or ends with a separator yields an empty first or last
    piece, and the empty string yields one empty piece. *)
Fixpoint split_tokens (in_sep : bool) (acc : jsstring) (str : jsstring)
  : list jsstring :=
  match str with
  | [] => [rev acc]
  | c :: rest =>
      if is_token_char c then split_tokens false (c :: acc) rest
      else if in_sep then split_tokens true acc rest
      else rev acc :: split_tokens true [] rest
  end.

(** A [Set<string>] as the list of its members in insertion order. *)
Definition set_has (s : list jsstring) (x : jsstring) : bool :=
  existsb (jsstring_eqb x) s.

Definition set_add (s : list jsstring) (x : jsstring) : list jsstring :=
  if set_has s x then s else s ++ [x].

(** [new Set(array)] *)
Definition set_from (l : list jsstring) : list jsstring :=
  fold_left set_add l [].

(** [const tokenize = (str) => new Set(str.split(...))] *)
Definition tokenize (str : jsstring) : list jsstring :=
  set_from (split_tokens false [] str).

(** [[...mine].filter(x => !theirs.has(x) && x.length > 3)] *)
Definition only_in (mine theirs : list jsstring) : list jsstring :=
  List.filter (fun x => negb (set_has theirs x) && (3 <? length x)%nat) mine.

(** [array.join(sep)] *)
Fixpoint join (sep : jsstring) (l : list jsstring) : jsstring :=
  match l with
  | [] => []
  | [x] => x
  | x :: rest => x ++ sep ++ join sep rest
  end.

(** [s.substring(0, n)] *)
Definition substring0 (s : jsstring) (n : nat) : jsstring := take n s.

(** The text pieces of the template literals. *)
Definition ADDED_MODULE : jsstring :=      (* "\n[新增模組] " *)
  [0x000a; 0x005b; 0x65b0; 0x589e; 0x6a21; 0x7d44; 0x005d; 0x0020]%N.
Definition CHANGED_OPEN : jsstring :=      (* "\n--- 模組變更: " *)
  [0x000a; 0x002d; 0x002d; 0x002d; 0x0020; 0x6a21; 0x7d44; 0x8b8a; 0x66f4;
   0x003a; 0x0020]%N.
Definition CHANGED_CLOSE : jsstring :=     (* " ---\n" *)
  [0x0020; 0x002d; 0x002d; 0x002d; 0x000a]%N.
Definition ADDED_TOKENS : jsstring :=      (* "[新增關鍵字/字串]: " *)
  [0x005b; 0x65b0; 0x589e; 0x95dc; 0x9375; 0x5b57; 0x002f; 0x5b57; 0x4e32;
   0x005d; 0x003a; 0x0020]%N.
Definition REMOVED_TOKENS : jsstring :=    (* "[移除關鍵字/字串]: " *)
  [0x005b; 0x79fb; 0x9664; 0x95dc; 0x9375; 0x5b57; 0x002f; 0x5b57; 0x4e32;
   0x005d; 0x003a; 0x0020]%N.
Definition COMMA_SPACE : jsstring := lit ", ".

(** What one module of the new build adds to the diff: the outcome of one
    turn of the loop over [Object.entries(newFiles)]. *)
Inductive DiffEntry :=
| AddedModule (path : jsstring)
| ChangedModule (path : jsstring) (added removed : list jsstring)
| Silent.

(** One turn of the loop, up to the text it appends.  [!oldContent] holds
    for a missing module and for one whose old content is the empty
    string. *)
Definition diff_entry (oldFiles : Files) (path newContent : jsstring)
  : DiffEntry :=
  match files_get oldFiles path with
  | Some (c :: old) =>
      let oldContent := c :: old in
      if negb (jsstring_eqb oldContent newContent) then
        let oldTokens := tokenize oldContent in
        let newTokens := tokenize newContent in
        let added := only_in newTokens oldTokens in
        let removed := only_in oldTokens newTokens in
        if (0 <? length added)%nat || (0 <? length removed)%nat
        then ChangedModule path added removed
        else Silent
      else Silent
  | _ => AddedModule path
  end.

(** The text a turn appends to [diffSummary]. *)
Definition token_line (label : jsstring) (tokens : list jsstring) : jsstring :=
  if (0 <? length tokens)%nat
  then label ++ join COMMA_SPACE (take 40 tokens) ++ [NEWLINE]
  else [].

Definition render_entry (e : DiffEntry) : jsstring :=
  match e with
  | AddedModule path => ADDED_MODULE ++ path ++ [NEWLINE]
  | ChangedModule path added removed =>
      CHANGED_OPEN ++ path ++ CHANGED_CLOSE
      ++ token_line ADDED_TOKENS added ++ token_line REMOVED_TOKENS removed
  | Silent => []
  end.

(** [generateDiff]: the loop accumulates [diffSummary] over the entries of
    [newFiles]; the result is cut after 3000 code units. *)
Definition generateDiff (oldFiles newFiles : Files) : jsstring :=
  let diffSummary :=
    fold_left (fun diffSummary '(path, newContent) =>
                 diffSummary ++ render_entry (diff_entry oldFiles path newContent))
              newFiles [] in
  substring0 diffSummary 3000.

(** ** Effects *)

(** The lines the run writes to the console; the texts themselves carry no
    behaviour, so a message is identified by the statement that writes it
    and by the values it mentions. *)
Inductive LogMsg :=
| LogBootstrap (buildId : jsstring)             (* first write of the build *)
| LogChanged (lastBuildId buildId : jsstring)   (* a new version was found *)
| LogDiff (diffText : jsstring)                 (* the diff that was produced *)
| LogCallingAI
| LogNoChange (buildId : jsstring)
| LogRunError                                   (* [catch] of [checkTask] *)
| LogScriptError (path : jsstring)              (* [catch] of one download *)
| LogSummaryError.                              (* [catch] of the summariser *)

(** What a run does to the outside world, in the order it does it. *)
Inductive Event :=
| FetchPage                                        (* GET [TARGET_URL] *)
| FetchScript (path : jsstring)                    (* GET origin + path *)
| KvGet (key : string)
| KvPut (key : string) (value : jsstring)
| PostSummarizer (prompt : jsstring)               (* POST [LLM_API_URL] *)
| PostNotifier (oldId newId summary : jsstring)    (* POST [DISCORD_WEBHOOK_URL] *)
| Log (msg : LogMsg).

(** The key-value namespace and the trace of the run so far. *)
Record State := {
  kv : gmap string jsstring;
  trace : list Event;
}.

(** An [async] computation: it returns or throws, and changes the state. *)
Inductive Outcome (A : Type) :=
| Returned (a : A)
| Thrown.
Arguments Returned {A} a.
Arguments Thrown {A}.

Definition Async (A : Type) : Type := State -> Outcome A * State.

Definition ret {A} (a : A) : Async A := fun st => (Returned a, st).

Definition throw {A} : Async A := fun st => (Thrown, st).

Definition bind {A B} (c : Async A) (k : A -> Async B) : Async B :=
  fun st => match c st with
            | (Returned a, st') => k a st'
            | (Thrown, st') => (Thrown, st')
            end.

(** [try { body } catch { handler }] *)
Definition try_catch {A} (body handler : Async A) : Async A :=
  fun st => match body st with
            | (Returned a, st') => (Returned a, st')
            | (Thrown, st') => handler st'
            end.

Notation "'await' x <- c ; k" := (bind c (fun x => k))
  (at level 60, x name, c at next level, right associativity).
Notation "'perform' c ; k" := (bind c (fun _ => k))
  (at level 60, c at next level, right associativity).

Definition emit (e : Event) : Async unit :=
  fun st => (Returned tt, {| kv := kv st; trace := trace st ++ [e] |}).

Definition console (msg : LogMsg) : Async unit := emit (Log msg).

(** [env.MONITOR_KV.get(key)] and [env.MONITOR_KV.put(key, value)] *)
Definition kv_get (key : string) : Async (option jsstring) :=
  fun st => (Returned (kv st !! key),
             {| kv := kv st; trace := trace st ++ [KvGet key] |}).

Definition kv_put (key : string) (value : jsstring) : Async unit :=
  fun st => (Returned tt,
             {| kv := <[key := value]> (kv st);
                trace := trace st ++ [KvPut key value] |}).

(** [for (const x of l) await f(x)] *)
Fixpoint for_each {A} (l : list A) (f : A -> Async unit) : Async unit :=
  match l with
  | [] => ret tt
  | x :: rest => perform f x ; for_each rest f
  end.

(** A loop that carries a value from turn to turn. *)
Fixpoint fold_async {A B} (f : B -> A -> Async B) (l : list A) (b : B)
  : Async B :=
  match l with
  | [] => ret b
  | x :: rest => await b' <- f b x ; fold_async f rest b'
  end.

(** ** The outside world *)

(** The answer to one [fetch]: the promise rejects, or it resolves to a
    response with a status whose body text can be read or not. *)
Inductive HttpReply :=
| Rejected
| Replied (status : N) (text : option jsstring).

(** [res.ok] *)
Definition http_ok (status : N) : bool := in_range 200 299 status.

(** The answer of the text-generation endpoint as the summariser sees it:
    either something in the [try] block throws (the request, [res.json()],
    or a [content] that is no string), or the optional chain
    [data.choices?.[0]?.message?.content] yields a string or nothing. *)
Inductive Completion :=
| CompletionFails
| CompletionContent (content : option jsstring).

Record World := {
  page_reply : HttpReply;
  (** the reply to the [i]-th script request, for the path requested *)
  script_reply : nat -> jsstring -> HttpReply;
  (** the order in which the script downloads finish, as positions in
      [scriptPaths] *)
  completion_order : list nat;
  summarizer_reply : jsstring -> Completion;
  notifier_reply : jsstring -> jsstring -> jsstring -> HttpReply;
}.

(** [JSON.stringify] and [JSON.parse] on script maps; [None] stands for the
    [SyntaxError] of [JSON.parse]. *)
Class JSON := {
  JSON_stringify : Files -> jsstring;
  JSON_parse : jsstring -> option Files;
}.

(** ** Summariser client and notifier *)

(** White space and line terminators, the characters [String.prototype.trim]
    removes. *)
Definition is_js_space (c : N) : bool :=
  in_range 0x09 0x0d c || (c =? 0x20)%N || (c =? 0xa0)%N || (c =? 0x1680)%N
  || in_range 0x2000 0x200a c || (c =? 0x2028)%N || (c =? 0x2029)%N
  || (c =? 0x202f)%N || (c =? 0x205f)%N || (c =? 0x3000)%N || (c =? 0xfeff)%N.

Fixpoint trim_start (s : jsstring) : jsstring :=
  match s with
  | [] => []
  | c :: rest => if is_js_space c then trim_start rest else s
  end.

(** [s.trim()] *)
Definition trim (s : jsstring) : jsstring :=
  rev (trim_start (rev (trim_start s))).

(** The three fixed sentences of [getAIPatchSummary]. *)
Definition FALLBACK_TRIVIAL : jsstring :=
  (* 僅有微小變更或資源檔更新，無明顯業務邏輯變化。 *)
  [0x50c5; 0x6709; 0x5fae; 0x5c0f; 0x8b8a; 0x66f4; 0x6216; 0x8cc7; 0x6e90;
   0x6a94; 0x66f4; 0x65b0; 0xff0c; 0x7121; 0x660e; 0x986f; 0x696d; 0x52d9;
   0x908f; 0x8f2f; 0x8b8a; 0x5316; 0x3002]%N.
Definition FALLBACK_UNPARSED : jsstring :=
  (* 無法解析更新內容。 *)
  [0x7121; 0x6cd5; 0x89e3; 0x6790; 0x66f4; 0x65b0; 0x5167; 0x5bb9; 0x3002]%N.
Definition FALLBACK_FAILED : jsstring :=
  (* AI 簡報生成失敗，請手動查看變更。 *)
  [0x0041; 0x0049; 0x0020; 0x7c21; 0x5831; 0x751f; 0x6210; 0x5931; 0x6557;
   0xff0c; 0x8acb; 0x624b; 0x52d5; 0x67e5; 0x770b; 0x8b8a; 0x66f4; 0x3002]%N.

(** The prompt template up to the place where the diff text is inserted. *)
Definition PROMPT_HEAD : jsstring :=
  [0x4f60; 0x662f; 0x4e00; 0x500b; 0x8cc7; 0x6df1; 0x524d; 0x7aef; 0x5de5;
   0x7a0b; 0x5e2b; 0x3002; 0x76ee; 0x6a19; 0x7db2; 0x7ad9; 0x525b; 0x525b;
   0x66f4; 0x65b0; 0x4e86; 0xff0c; 0x4ee5; 0x4e0b; 0x662f; 0x0020; 0x004a;
   0x0053; 0x0020; 0x4ee3; 0x78bc; 0x8b8a; 0x66f4; 0x6642; 0x63d0; 0x53d6;
   0x51fa; 0x7684; 0x300c; 0x65b0; 0x589e; 0x002f; 0x79fb; 0x9664; 0x300d;
   0x95dc; 0x9375; 0x5b57; 0x8207; 0x5b57; 0x4e32; 0x3002; 0x000a; 0x8acb;
   0x900f; 0x904e; 0x9019; 0x4e9b; 0x86db; 0x7d72; 0x99ac; 0x8de1; 0xff0c;
   0x63a8; 0x6e2c; 0x4e26; 0x7528; 0x300c; 0x4e00; 0x53e5; 0x8a71; 0xff08;
   0x4e0d; 0x8d85; 0x904e; 0x0033; 0x0030; 0x5b57; 0xff09; 0x300d; 0x7e3d;
   0x7d50; 0x5de5; 0x7a0b; 0x5e2b; 0x53ef; 0x80fd; 0x66f4; 0x65b0; 0x4e86;
   0x4ec0; 0x9ebc; 0x696d; 0x52d9; 0x908f; 0x8f2f; 0x3002; 0x000a; 0x4f8b;
   0x5982; 0xff1a; 0x300c; 0x589e; 0x52a0; 0x6b50; 0x76df; 0x570b; 0x5bb6;
   0x5224; 0x65b7; 0xff0c; 0x8abf; 0x6574; 0x521d; 0x59cb; 0x5316; 0x908f;
   0x8f2f; 0x4ee5; 0x7b26; 0x5408; 0x5730; 0x5340; 0x5408; 0x898f; 0x8981;
   0x6c42; 0x300d; 0x3002; 0x000a; 0x000a; 0x8b8a; 0x66f4; 0x5167; 0x5bb9;
   0xff1a; 0x000a]%N.

Section Pipeline.

Context {json : JSON}.
Variable w : World.

(** [fetchPageData]: one request; a status outside 200..299 throws. *)
Definition fetchPageData : Async PageData :=
  perform emit FetchPage ;
  match page_reply w with
  | Rejected => throw
  | Replied status text =>
      if negb (http_ok status) then throw
      else match text with
           | None => throw
           | Some html => ret (parsePage html)
           end
  end.

(** The part of one download that runs once its replies are in: the body of
    the [try] after the two [await]s, or the [catch]. *)
Definition script_done (scriptPaths : list jsstring) (files : Files) (i : nat)
  : Async Files :=
  match scriptPaths !! i with
  | None => ret files
  | Some path =>
      match script_reply w i path with
      | Replied _ (Some content) =>
          let baseName := strip_hash path in
          ret (files_set files baseName content)
      | _ => perform console (LogScriptError path) ; ret files
      end
  end.

(** [fetchJsContents]: [scriptPaths.map] starts every download in turn, each
    up to its first [await]; the downloads then finish in the order the
    world decides, each assigning its entry of [files] or logging its
    failure; [Promise.all] resolves when all have finished. *)
Definition fetchJsContents (scriptPaths : list jsstring) : Async Files :=
  perform for_each scriptPaths (fun path => emit (FetchScript path)) ;
  fold_async (script_done scriptPaths) (completion_order w) [].

(** [getAIPatchSummary] *)
Definition getAIPatchSummary (diffText : jsstring) : Async jsstring :=
  if negb (truthy (Some (trim diffText))) then ret FALLBACK_TRIVIAL
  else
    let prompt := PROMPT_HEAD ++ diffText in
    try_catch
      (perform emit (PostSummarizer prompt) ;
       match summarizer_reply w prompt with
       | CompletionFails => throw
       | CompletionContent content =>
           let text := option_map trim content in
           ret (if truthy text then default [] text else FALLBACK_UNPARSED)
       end)
      (perform console LogSummaryError ; ret FALLBACK_FAILED).

(** [sendDiscordNotification]: one POST whose response is not read. *)
Definition sendDiscordNotification (oldId newId summary : jsstring)
  : Async unit :=
  perform emit (PostNotifier oldId newId summary) ;
  match notifier_reply w oldId newId summary with
  | Rejected => throw
  | Replied _ _ => ret tt
  end.

(** [lastJsFilesStr ? JSON.parse(lastJsFilesStr) : {}] *)
Definition parse_last (lastJsFilesStr : option jsstring) : Async Files :=
  match lastJsFilesStr with
  | Some (c :: s) =>
      match JSON_parse (c :: s) with
      | Some files => ret files
      | None => throw
      end
  | _ => ret []
  end.

(** [checkTask] *)
Definition checkTask : Async unit :=
  try_catch
    (await page <- fetchPageData ;
     match pd_buildId page with
     | Some (b :: uild) =>
         let buildId := b :: uild in
         await currentJsFiles <- fetchJsContents (pd_scriptPaths page) ;
         await lastBuildId <- kv_get "LAST_BUILD_ID" ;
         await lastJsFilesStr <- kv_get "LAST_JS_FILES" ;
         await lastJsFiles <- parse_last lastJsFilesStr ;
         match lastBuildId with
         | Some (l :: ast) =>
             let lastBuildId := l :: ast in
             if negb (jsstring_eqb buildId lastBuildId) then
               perform console (LogChanged lastBuildId buildId) ;
               let diffText := generateDiff lastJsFiles currentJsFiles in
               perform console (LogDiff diffText) ;
               perform console LogCallingAI ;
               await summary <- getAIPatchSummary diffText ;
               perform sendDiscordNotification lastBuildId buildId summary ;
               perform kv_put "LAST_BUILD_ID" buildId ;
               kv_put "LAST_JS_FILES" (JSON_stringify currentJsFiles)
             else
               console (LogNoChange buildId)
         | _ =>
             (* [!lastBuildId]: first start, write without notifying *)
             perform console (LogBootstrap buildId) ;
             perform kv_put "LAST_BUILD_ID" buildId ;
             kv_put "LAST_JS_FILES" (JSON_stringify currentJsFiles)
         end
     | _ => ret tt                      (* [if (!buildId) return] *)
     end)
    (console LogRunError).

End Pipeline.

(** ** Notions used in the statements *)

(** The entries of the diff, one per module of the new build, before they
    are rendered and cut. *)
Definition diff_entries (oldFiles newFiles : Files) : list DiffEntry :=
  map (fun '(path, newContent) => diff_entry oldFiles path newContent) newFiles.

(** The module an entry names. *)
Definition entry_path (e : DiffEntry) : option jsstring :=
  match e with
  | AddedModule path => Some path
  | ChangedModule path _ _ => Some path
  | Silent => None
  end.

(** The tokens an entry lists. *)
Definition entry_tokens (e : DiffEntry) : list jsstring :=
  match e with
  | ChangedModule _ added removed => take 40 added ++ take 40 removed
  | _ => []
  end.

(** The state after a computation, with the events it added. *)
Definition add_trace (st : State) (events : list Event) : State :=
  {| kv := kv st; trace := trace st ++ events |}.

Definition initial : State := {| kv := ∅; trace := [] |}.

(** The value a computation returns and the events it produces when they
    do not depend on the state it starts from. *)
Definition result_of {A} (default : A) (c : Async A) : A :=
  match c initial with
  | (Returned a, _) => a
  | (Thrown, _) => default
  end.

Definition effects_of {A} (c : Async A) : list Event := trace (snd (c initial)).

(** The script map of a run and the events of its downloads. *)
Definition downloaded (w : World) (scriptPaths : list jsstring) : Files :=
  result_of [] (fetchJsContents w scriptPaths).

Definition download_trace (w : World) (scriptPaths : list jsstring)
  : list Event :=
  effects_of (fetchJsContents w scriptPaths).

(** The summary of a diff text and the events of obtaining it. *)
Definition summary_of (w : World) (diffText : jsstring) : jsstring :=
  result_of [] (getAIPatchSummary w diffText).

Definition summary_trace (w : World) (diffText : jsstring) : list Event :=
  effects_of (getAIPatchSummary w diffText).

(** The page markup contains a match of the build marker: the opening
    literal, a non-empty token without quotes, a closing quote. *)
Definition has_buildId_marker (html : jsstring) : Prop :=
  exists before token rest,
    html = before ++ BUILD_ID_OPEN ++ token ++ QUOTE :: rest
    /\ token <> [] /\ ~ In QUOTE token.

(** The stored script blob is absent, empty, or a document [JSON.parse]
    accepts; every blob the pipeline writes is one. *)
Definition stored_files_parse {json : JSON} (store : gmap string jsstring) : Prop :=
  match store !! "LAST_JS_FILES"%string with
  | Some (c :: s) => JSON_parse (c :: s) <> None
  | _ => True
  end.

(** The script map read back from the store ([lastJsFiles]). *)
Definition stored_files {json : JSON} (store : gmap string jsstring) : Files :=
  match store !! "LAST_JS_FILES"%string with
  | Some (c :: s) => default [] (JSON_parse (c :: s))
  | _ => []
  end.

(** Events other than a store write, a summariser or notifier call, and the
    report of a computed diff. *)
Definition quiet (e : Event) : bool :=
  match e with
  | KvPut _ _ | PostSummarizer _ | PostNotifier _ _ _ | Log (LogDiff _) => false
  | _ => true
  end.

(** Events other than a call of the summariser or the notifier. *)
Definition no_call (e : Event) : bool :=
  match e with
  | PostSummarizer _ | PostNotifier _ _ _ => false
  | _ => true
  end.

(** Download [j] of a run resolves, body included, and its path has the
    canonical name [name]. *)
Definition resolves (w : World) (scriptPaths : list jsstring) (j : nat)
  (name content : jsstring) : Prop :=
  exists path status,
    scriptPaths !! j = Some path
    /\ script_reply w j path = Replied status (Some content)
    /\ strip_hash path = name.

(** What the end of download [i] does to the script map, and what it
    logs. *)
Definition assigned (w : World) (scriptPaths : list jsstring) (files : Files)
  (i : nat) : Files :=
  match scriptPaths !! i with
  | Some path =>
      match script_reply w i path with
      | Replied _ (Some content) => files_set files (strip_hash path) content
      | _ => files
      end
  | None => files
  end.

Definition complaint (w : World) (scriptPaths : list jsstring) (i : nat)
  : list Event :=
  match scriptPaths !! i with
  | Some path =>
      match script_reply w i path with
      | Replied _ (Some _) => []
      | _ => [Log (LogScriptError path)]
      end
  | None => []
  end.

(** The events of a run from the page request to the two store reads. *)
Definition reads (w : World) (html : jsstring) : list Event :=
  [FetchPage] ++ download_trace w (match_scripts html)
  ++ [KvGet "LAST_BUILD_ID"; KvGet "LAST_JS_FILES"].

(** The events of the changed path up to and including the one attempt to
    notify. *)
Definition attempt {json : JSON} (w : World) (st : State) (html : jsstring)
  (lastBuildId buildId : jsstring) : list Event :=
  let diffText :=
    generateDiff (stored_files (kv st)) (downloaded w (match_scripts html)) in
  reads w html
  ++ [Log (LogChanged lastBuildId buildId); Log (LogDiff diffText);
      Log LogCallingAI]
  ++ summary_trace w diffText
  ++ [PostNotifier lastBuildId buildId (summary_of w diffText)].

(** The store after the new snapshot was written. *)
Definition persisted {json : JSON} (store : gmap string jsstring)
  (buildId : jsstring) (files : Files) : gmap string jsstring :=
  <["LAST_JS_FILES"%string := JSON_stringify files]>
    (<["LAST_BUILD_ID"%string := buildId]> store).

(** ** Sample inputs for the closed examples *)

(** A codec for the closed examples; the theorems hold for every codec.  It
    writes the entries one after the other, every key and every value
    closed by the code unit 0, and reads such a text back; a text with an
    unclosed or an unpaired string is refused. *)
Fixpoint sample_fields (acc s : jsstring) : option (list jsstring) :=
  match s with
  | [] => match acc with [] => Some [] | _ => None end
  | c :: rest =>
      if (c =? 0)%N then option_map (cons (rev acc)) (sample_fields [] rest)
      else sample_fields (c :: acc) rest
  end.

Fixpoint sample_pairs (l : list jsstring) : option Files :=
  match l with
  | [] => Some []
  | k :: v :: rest => option_map (cons (k, v)) (sample_pairs rest)
  | _ => None
  end.

Definition sample_codec : JSON := {|
  JSON_stringify files := flat_map (fun '(k, v) => k ++ [0%N] ++ v ++ [0%N]) files;
  JSON_parse s := match sample_fields [] s with
                  | Some l => sample_pairs l
                  | None => None
                  end;
|}.

(** A page of build [build-2] with two chunks. *)
Definition sample_page : jsstring :=
  sample_html "build-2"
    ["/_next/static/chunks/main-0123456789abcdef.js";
     "/_next/static/chunks/app/page-f771e2c1298902e1.js"]%string.

(** A page without a build marker. *)
Definition sample_page_unmarked : jsstring :=
  lit "<html><body>maintenance</body></html>".

(** A world that serves [page]; both chunks download, the second one first;
    the summariser answers; the webhook answers as [notifier] says. *)
Definition sample_world (page : jsstring) (notifier : HttpReply) : World := {|
  page_reply := Replied 200 (Some page);
  script_reply i path :=
    Replied 200 (Some (if (i =? 0)%nat then lit "init(region, euCountry)"
                       else lit "render(page)"));
  completion_order := [1; 0]%nat;
  summarizer_reply prompt := CompletionContent (Some (lit " adds a country check "));
  notifier_reply oldId newId summary := notifier;
|}.

(** A store left by a run that saw build [build-1]. *)
Definition sample_store : gmap string jsstring :=
  <["LAST_JS_FILES"%string :=
      JSON_stringify (JSON := sample_codec)
        [(lit "/_next/static/chunks/main.js", lit "init(region)")]]>
    (<["LAST_BUILD_ID"%string := lit "build-1"]> ∅).

(** A store left by a run that saw build [build-2]. *)
Definition sample_store_current : gmap string jsstring :=
  <["LAST_JS_FILES"%string :=
      JSON_stringify (JSON := sample_codec)
        [(lit "/_next/static/chunks/main.js", lit "init(region)")]]>
    (<["LAST_BUILD_ID"%string := lit "build-2"]> ∅).

Definition state_of (store : gmap string jsstring) : State :=
  {| kv := store; trace := [] |}.

(** Two chunks whose paths differ in the hash only. *)
Definition colliding_paths : list jsstring :=
  [lit "/_next/static/chunks/a-0123456789abcdef.js";
   lit "/_next/static/chunks/a-fedcba9876543210.js"].

(** A world in which both downloads resolve, with different bodies, in the
    order they were requested. *)
Definition colliding_world : World := {|
  page_reply := Rejected;
  script_reply i path :=
    Replied 200 (Some (if (i =? 0)%nat then lit "first body" else lit "second body"));
  completion_order := [0; 1]%nat;
  summarizer_reply prompt := CompletionFails;
  notifier_reply oldId newId summary := Rejected;
|}.

(** A world in which the second of three downloads answers 404 with a body
    and the third one rejects. *)
Definition flaky_world : World := {|
  page_reply := Rejected;
  script_reply i path :=
    match i with
    | 0%nat => Replied 200 (Some (lit "one"))
    | 1%nat => Replied 404 (Some (lit "Not Found"))
    | _ => Rejected
    end;
  completion_order := [2; 0; 1]%nat;
  summarizer_reply prompt := CompletionFails;
  notifier_reply oldId newId summary := Rejected;
|}.

(** ** The worker's entry points *)

(** The fixed arguments of the test notification and the two response
    bodies of the HTTP entry point. *)
Definition TEST_OLD_ID : jsstring := lit "Old-Test-Build-123".
Definition TEST_NEW_ID : jsstring := lit "New-Test-Build-456".
Definition TEST_MESSAGE : jsstring :=
  (* 這是一條測試訊息！如果你看到這段話，代表 Discord Webhook 串接完全成功囉 🚀 *)
  [0x9019; 0x662f; 0x4e00; 0x689d; 0x6e2c; 0x8a66; 0x8a0a; 0x606f;
   0xff01; 0x5982; 0x679c; 0x4f60; 0x770b; 0x5230; 0x9019; 0x6bb5;
   0x8a71; 0xff0c; 0x4ee3; 0x8868; 0x0020; 0x0044; 0x0069; 0x0073;
   0x0063; 0x006f; 0x0072; 0x0064; 0x0020; 0x0057; 0x0065; 0x0062;
   0x0068; 0x006f; 0x006f; 0x006b; 0x0020; 0x4e32; 0x63a5; 0x5b8c;
   0x5168; 0x6210; 0x529f; 0x56c9; 0x0020; 0xd83d; 0xde80]%N.
Definition RESPONSE_TEST : jsstring :=
  (* ✅ 測試通知已成功發送至 Discord！請檢查你的頻道。 *)
  [0x2705; 0x0020; 0x6e2c; 0x8a66; 0x901a; 0x77e5; 0x5df2; 0x6210;
   0x529f; 0x767c; 0x9001; 0x81f3; 0x0020; 0x0044; 0x0069; 0x0073;
   0x0063; 0x006f; 0x0072; 0x0064; 0xff01; 0x8acb; 0x6aa2; 0x67e5;
   0x4f60; 0x7684; 0x983b; 0x9053; 0x3002]%N.
Definition RESPONSE_DONE : jsstring :=
  (* ✅ 監控任務執行完畢！請查看 Discord 或 KV 狀態。 *)
  [0x2705; 0x0020; 0x76e3; 0x63a7; 0x4efb; 0x52d9; 0x57f7; 0x884c;
   0x5b8c; 0x7562; 0xff01; 0x8acb; 0x67e5; 0x770b; 0x0020; 0x0044;
   0x0069; 0x0073; 0x0063; 0x006f; 0x0072; 0x0064; 0x0020; 0x6216;
   0x0020; 0x004b; 0x0056; 0x0020; 0x72c0; 0x614b; 0x3002]%N.

Module Worker.

(** [scheduled]: the cron entry point hands the run to [ctx.waitUntil]. *)
Definition scheduled {json : JSON} (w : World) : Async unit := checkTask w.

(** [fetch]: the HTTP entry point.  [test] is what
    [url.searchParams.get("test")] yields for the request, [None] for
    [null]; the result is the body of the response.  The test notification
    is awaited outside any [try]. *)
Definition fetch {json : JSON} (w : World) (test : option jsstring)
  : Async jsstring :=
  if bool_decide (test = Some (lit "true")) then
    perform sendDiscordNotification w TEST_OLD_ID TEST_NEW_ID TEST_MESSAGE ;
    ret RESPONSE_TEST
  else
    perform checkTask w ;
    ret RESPONSE_DONE.

End Worker.

(** ** Further notions used in the statements *)

(** The script references of a page, position by position, without the
    jump behind a match that [scan_scripts] makes. *)
Fixpoint all_scripts (html : jsstring) : list jsstring :=
  match html with
  | [] => []
  | _ :: rest =>
      match script_at html with
      | Some (path, _) => path :: all_scripts rest
      | None => all_scripts rest
      end
  end.

(** [s] starts with a build marker that carries [token]. *)
Definition marker_at (s token : jsstring) : Prop :=
  exists rest, s = BUILD_ID_OPEN ++ token ++ QUOTE :: rest
               /\ token <> [] /\ ~ In QUOTE token.

(** [s] starts with a script reference to [path]: the attribute opening,
    the chunk directory, a non-empty stem without quotes, [.js], a quote. *)
Definition script_ref_at (s path : jsstring) : Prop :=
  exists stem rest,
    s = SCRIPT_OPEN ++ CHUNK_DIR ++ stem ++ DOT_JS ++ QUOTE :: rest
    /\ stem <> [] /\ ~ In QUOTE stem
    /\ path = CHUNK_DIR ++ stem ++ DOT_JS.

(** The keys of a script map. *)
Definition keys (files : Files) : list jsstring := map fst files.

(** A string ends with [suffix]. *)
Definition ends_with (suffix s : jsstring) : Prop := exists stem, s = stem ++ suffix.

Definition is_notify (e : Event) : bool :=
  match e with PostNotifier _ _ _ => true | _ => false end.

Definition is_put (e : Event) : bool :=
  match e with KvPut _ _ => true | _ => false end.

(** The paths a run can end on, with the final state of each: the six
    ways through [checkTask]. *)
Inductive Ending {json : JSON} (w : World) (st : State) : State -> Prop :=
| EndPageError :
    (forall status html, page_reply w = Replied status (Some html) ->
                         http_ok status = false) ->
    Ending w st (add_trace st [FetchPage; Log LogRunError])
| EndAborted status html :
    page_reply w = Replied status (Some html) -> http_ok status = true ->
    match_buildId html = None ->
    Ending w st (add_trace st [FetchPage])
| EndBlobError status html buildId :
    page_reply w = Replied status (Some html) -> http_ok status = true ->
    match_buildId html = Some buildId ->
    ~ stored_files_parse (kv st) ->
    Ending w st (add_trace st (reads w html ++ [Log LogRunError]))
| EndBootstrap status html buildId :
    page_reply w = Replied status (Some html) -> http_ok status = true ->
    match_buildId html = Some buildId ->
    stored_files_parse (kv st) ->
    truthy (kv st !! "LAST_BUILD_ID"%string) = false ->
    let files := downloaded w (match_scripts html) in
    Ending w st
      {| kv := persisted (kv st) buildId files;
         trace := trace st ++ reads w html
                  ++ [Log (LogBootstrap buildId);
                      KvPut "LAST_BUILD_ID" buildId;
                      KvPut "LAST_JS_FILES" (JSON_stringify files)] |}
| EndNoChange status html buildId :
    page_reply w = Replied status (Some html) -> http_ok status = true ->
    match_buildId html = Some buildId ->
    stored_files_parse (kv st) ->
    kv st !! "LAST_BUILD_ID"%string = Some buildId ->
    Ending w st (add_trace st (reads w html ++ [Log (LogNoChange buildId)]))
| EndNotifyError status html buildId lastBuildId :
    page_reply w = Replied status (Some html) -> http_ok status = true ->
    match_buildId html = Some buildId ->
    stored_files_parse (kv st) ->
    kv st !! "LAST_BUILD_ID"%string = Some lastBuildId ->
    lastBuildId <> [] -> lastBuildId <> buildId ->
    notifier_reply w lastBuildId buildId
      (summary_of w (generateDiff (stored_files (kv st))
                       (downloaded w (match_scripts html)))) = Rejected ->
    Ending w st
      (add_trace st (attempt w st html lastBuildId buildId ++ [Log LogRunError]))
| EndChanged status html buildId lastBuildId status' text' :
    page_reply w = Replied status (Some html) -> http_ok status = true ->
    match_buildId html = Some buildId ->
    stored_files_parse (kv st) ->
    kv st !! "LAST_BUILD_ID"%string = Some lastBuildId ->
    lastBuildId <> [] -> lastBuildId <> buildId ->
    notifier_reply w lastBuildId buildId
      (summary_of w (generateDiff (stored_files (kv st))
                       (downloaded w (match_scripts html))))
    = Replied status' text' ->
    let files := downloaded w (match_scripts html) in
    Ending w st
      {| kv := persisted (kv st) buildId files;
         trace := trace st ++ attempt w st html lastBuildId buildId
                  ++ [KvPut "LAST_BUILD_ID" buildId;
                      KvPut "LAST_JS_FILES" (JSON_stringify files)] |}.

(** A world whose page answers 503 with a body that carries a build
    marker. *)
Definition unavailable_world : World := {|
  page_reply := Replied 503 (Some sample_page);
  script_reply i path := Rejected;
  completion_order := [];
  summarizer_reply prompt := CompletionFails;
  notifier_reply oldId newId summary := Rejected;
|}.

(** A store whose script blob the sample codec refuses. *)
Definition broken_store : gmap string jsstring :=
  <["LAST_JS_FILES"%string := lit "{"]>
    (<["LAST_BUILD_ID"%string := lit "build-1"]> ∅).

(** The world [w] with its downloads finishing in another order. *)
Definition reordered (w : World) (order : list nat) : World := {|
  page_reply := page_reply w;
  script_reply := script_reply w;
  completion_order := order;
  summarizer_reply := summarizer_reply w;
  notifier_reply := notifier_reply w;
|}.

(** [t] is a maximal run of token characters of [s]: it is made of token
    characters, and what stands right before it and right after it in [s],
    if anything, is a separator. *)
Definition maximal_run (s t : jsstring) : Prop :=
  exists before after,
    s = before ++ t ++ after
    /\ forallb is_token_char t = true
    /\ (forall before' c, before = before' ++ [c] -> is_token_char c = false)
    /\ (forall c after', after = c :: after' -> is_token_char c = false).
(** * Properties *)

(** ** Normalizer *)

Example strip_hash_page :
  strip_hash (lit "page-f771e2c1298902e1.js") = lit "page.js".
Proof. vm_compute. reflexivity. Qed.

Example strip_hash_short :
  strip_hash (lit "page-f771e2c12989.js") = lit "page-f771e2c12989.js".
Proof. vm_compute. reflexivity. Qed.

Lemma jsstring_eqb_true a b : jsstring_eqb a b = true <-> a = b.
Proof. unfold jsstring_eqb. apply bool_decide_eq_true. Qed.

Lemma jsstring_eqb_false a b : a <> b -> jsstring_eqb a b = false.
Proof. intros H. unfold jsstring_eqb. now apply bool_decide_eq_false. Qed.

Lemma jsstring_eqb_refl a : jsstring_eqb a a = true.
Proof. now apply jsstring_eqb_true. Qed.

Lemma hash_suffix_at_spec s :
  hash_suffix_at s = true <->
  exists h, s = DASH :: h ++ DOT_JS
            /\ (16 <= length h)%nat /\ forallb is_hash_char h = true.
Proof.
  split.
  - destruct s as [|c t]; [discriminate|]. cbn [hash_suffix_at].
    intros H. repeat (apply andb_prop in H; destruct H as [H ?]).
    apply N.eqb_eq in H. apply Nat.leb_le in H2.
    apply jsstring_eqb_true in H0.
    exists (take (length t - 3) t). subst c. repeat split.
    + rewrite <- H0. now rewrite take_drop.
    + rewrite length_take. lia.
    + assumption.
  - intros (h & -> & Hlen & Hall). cbn [hash_suffix_at].
    rewrite length_app. change (length DOT_JS) with 3%nat.
    replace (length h + 3 - 3)%nat with (length h) by lia.
    rewrite take_app_length, drop_app_length, Hall.
    rewrite N.eqb_refl. cbn [andb].
    replace (16 <=? length h)%nat with true by (symmetry; now apply Nat.leb_le).
    cbn [andb]. now apply jsstring_eqb_true.
Qed.

Lemma dash_not_hash_char : is_hash_char DASH = false.
Proof. reflexivity. Qed.

(** No match can start before the dash of a hash suffix: the text between
    an earlier dash and [.js] would contain that later dash. *)
Lemma hash_suffix_at_earlier c name h :
  forallb is_hash_char h = true ->
  hash_suffix_at (c :: name ++ DASH :: h ++ DOT_JS) = false.
Proof.
  intros Hh. apply not_true_is_false. intros H.
  apply hash_suffix_at_spec in H. destruct H as (h' & E & _ & Hall).
  injection E as _ E.
  assert (E' : (name ++ DASH :: h) ++ DOT_JS = h' ++ DOT_JS)
    by (rewrite <- E, <- app_assoc; reflexivity).
  apply app_inv_tail in E'. subst h'.
  rewrite forallb_app in Hall. cbn [forallb] in Hall.
  rewrite dash_not_hash_char in Hall. cbn in Hall.
  now rewrite andb_false_r in Hall.
Qed.

Lemma strip_hash_strips name h :
  (16 <= length h)%nat -> forallb is_hash_char h = true ->
  strip_hash (name ++ DASH :: h ++ DOT_JS) = name ++ DOT_JS.
Proof.
  intros Hlen Hall. induction name as [|c name IH].
  - cbn [app]. destruct h as [|x h]; [cbn in Hlen; lia|].
    cbn [strip_hash].
    replace (hash_suffix_at (DASH :: (x :: h) ++ DOT_JS)) with true; [reflexivity|].
    symmetry. apply hash_suffix_at_spec. now exists (x :: h).
  - cbn [app strip_hash]. rewrite (hash_suffix_at_earlier c name h Hall).
    now rewrite IH.
Qed.

Lemma strip_hash_identity path :
  ~ has_hash_suffix path -> strip_hash path = path.
Proof.
  induction path as [|c rest IH]; intros Hno.
  - reflexivity.
  - cbn [strip_hash]. destruct (hash_suffix_at (c :: rest)) eqn:E.
    + exfalso. apply Hno. apply hash_suffix_at_spec in E.
      destruct E as (h & E & ? & ?). exists [], h. now rewrite E.
    + f_equal. apply IH. intros (name & h & -> & ? & ?).
      apply Hno. now exists (c :: name), h.
Qed.

(** C2: normalisation is exactly the stripping of a hash suffix, where the
    hexadecimal characters are those of the class [[a-f0-9]] of the
    pattern (digits and lower-case a to f).  A path made of a name, a dash,
    sixteen or more such characters and [.js] is mapped to the name
    followed by [.js]; every path that does not end in such a suffix is
    mapped to itself. *)
Theorem strip_hash_exact :
  (forall name h,
      (16 <= length h)%nat -> forallb is_hash_char h = true ->
      strip_hash (name ++ DASH :: h ++ DOT_JS) = name ++ DOT_JS)
  /\ (forall path, ~ has_hash_suffix path -> strip_hash path = path).
Proof. split; [exact strip_hash_strips | exact strip_hash_identity]. Qed.

(** The pattern is case-sensitive: a hash written with upper-case digits is
    no hash suffix, and the path is kept. *)
Example strip_hash_upper_case_kept :
  strip_hash (lit "page-F771E2C1298902E1.js") = lit "page-F771E2C1298902E1.js".
Proof. vm_compute. reflexivity. Qed.

Lemma no_dash_no_hash_suffix path : ~ In DASH path -> ~ has_hash_suffix path.
Proof.
  intros Hno (name & h & -> & _). apply Hno.
  apply in_or_app. right. now left.
Qed.

Lemma strip_hash_exact_witness :
  strip_hash (lit "app/page" ++ DASH :: lit "f771e2c1298902e1" ++ DOT_JS)
  = lit "app/page" ++ DOT_JS
  /\ strip_hash (lit "webpack.js") = lit "webpack.js".
Proof.
  split.
  - apply (proj1 strip_hash_exact); [vm_compute; lia | reflexivity].
  - apply (proj2 strip_hash_exact). apply no_dash_no_hash_suffix.
    vm_compute. intuition discriminate.
Defined.

(** ** Page parser *)

Example match_buildId_sample :
  match_buildId (sample_html "abc123" ["/_next/static/chunks/main-0123456789abcdef.js"%string])
  = Some (lit "abc123").
Proof. vm_compute. reflexivity. Qed.

Example match_scripts_sample :
  match_scripts (sample_html "abc123"
     ["/_next/static/chunks/main-0123456789abcdef.js"; "/other/x.js";
      "/_next/static/chunks/app/page-f771e2c1298902e1.js"; "/_next/static/chunks/.js"]%string)
  = [lit "/_next/static/chunks/main-0123456789abcdef.js";
     lit "/_next/static/chunks/app/page-f771e2c1298902e1.js"].
Proof. vm_compute. reflexivity. Qed.

Lemma starts_with_spec p s :
  starts_with p s = true <-> exists t, s = p ++ t.
Proof.
  revert s. induction p as [|a p IH]; intros s; cbn [starts_with].
  - split; eauto.
  - destruct s as [|b s].
    + split; [discriminate | intros [t Ht]; discriminate].
    + rewrite andb_true_iff, N.eqb_eq, IH. split.
      * intros [-> [t ->]]. eauto.
      * intros [t [= -> ->]]. eauto.
Qed.

Lemma until_quote_spec s run rest :
  until_quote s = Some (run, rest) <-> s = run ++ QUOTE :: rest /\ ~ In QUOTE run.
Proof.
  revert run rest. induction s as [|c s IH]; intros run rest; cbn [until_quote].
  - split; [discriminate|]. intros [H _]. now destruct run.
  - destruct (c =? QUOTE)%N eqn:E.
    + apply N.eqb_eq in E. subst c. split.
      * intros [= <- <-]. split; [reflexivity | intros []].
      * intros [H Hno]. destruct run as [|x run].
        -- now injection H as ->.
        -- injection H as <- _. exfalso. apply Hno. now left.
    + apply N.eqb_neq in E. split.
      * destruct (until_quote s) as [[r t]|] eqn:Es; [|discriminate].
        intros [= <- <-]. destruct (proj1 (IH r t) eq_refl) as [-> Hno].
        split; [reflexivity|]. intros [H|H]; [congruence | auto].
      * intros [H Hno]. destruct run as [|x run].
        -- injection H as -> _. congruence.
        -- injection H as <- H.
           assert (Es : until_quote s = Some (run, rest)).
           { apply IH. split; [assumption|]. intros Hin. apply Hno. now right. }
           now rewrite Es.
Qed.

Lemma buildId_at_spec s token :
  buildId_at s = Some token <->
  exists rest, s = BUILD_ID_OPEN ++ token ++ QUOTE :: rest
               /\ token <> [] /\ ~ In QUOTE token.
Proof.
  unfold buildId_at. split.
  - destruct (starts_with BUILD_ID_OPEN s) eqn:E; [|discriminate].
    apply starts_with_spec in E. destruct E as [t ->].
    rewrite drop_app_length.
    destruct (until_quote t) as [[[|c run] rest]|] eqn:Et; try discriminate.
    intros [= <-]. apply until_quote_spec in Et. destruct Et as [-> Hno].
    exists rest. repeat split; [discriminate | assumption].
  - intros (rest & -> & Hne & Hno).
    replace (starts_with BUILD_ID_OPEN (BUILD_ID_OPEN ++ token ++ QUOTE :: rest))
      with true by (symmetry; apply starts_with_spec; eauto).
    rewrite drop_app_length.
    replace (until_quote (token ++ QUOTE :: rest)) with (Some (token, rest))
      by (symmetry; now apply until_quote_spec).
    destruct token; [contradiction | reflexivity].
Qed.

(** The matcher finds a build marker exactly when the markup contains
    one. *)
Lemma match_buildId_found html token :
  match_buildId html = Some token ->
  has_buildId_marker html /\ token <> [].
Proof.
  induction html as [|c html IH]; cbn [match_buildId].
  - destruct (buildId_at []) eqn:E; [|discriminate].
    intros [= ->]. apply buildId_at_spec in E.
    destruct E as (rest & E & ? & ?). split; [|assumption].
    exists [], token, rest. auto.
  - destruct (buildId_at (c :: html)) eqn:E.
    + intros [= ->]. apply buildId_at_spec in E.
      destruct E as (rest & E & ? & ?). split; [|assumption].
      exists [], token, rest. auto.
    + intros H. destruct (IH H) as [(before & t & rest & -> & ? & ?) ?].
      split; [|assumption]. exists (c :: before), t, rest. auto.
Qed.

Lemma match_buildId_complete html :
  has_buildId_marker html -> match_buildId html <> None.
Proof.
  intros (before & token & rest & -> & Hne & Hno).
  induction before as [|c before IH].
  - cbn [app].
    assert (E : buildId_at (BUILD_ID_OPEN ++ token ++ QUOTE :: rest) = Some token)
      by (apply buildId_at_spec; eauto).
    destruct (BUILD_ID_OPEN ++ token ++ QUOTE :: rest); cbn [match_buildId];
      now rewrite E.
  - cbn [app match_buildId].
    destruct (buildId_at (c :: before ++ _)); [discriminate | exact IH].
Qed.

Lemma match_buildId_None html :
  match_buildId html = None <-> ~ has_buildId_marker html.
Proof.
  split.
  - intros E H. now apply match_buildId_complete in H.
  - intros Hno. destruct (match_buildId html) eqn:E; [|reflexivity].
    apply match_buildId_found in E. tauto.
Qed.

(** ** Differ *)

Example tokenize_sample :
  tokenize (lit "  foo(bar, foo); x ") = [ []; lit "foo"; lit "bar"; lit "x" ].
Proof. vm_compute. reflexivity. Qed.

Example tokenize_empty : tokenize [] = [ [] ].
Proof. reflexivity. Qed.

(** The example of the specification: every token of the two contents is
    three characters long or shorter, so nothing is reported although the
    contents differ. *)
Example generateDiff_short_tokens :
  generateDiff [(lit "a.js", lit "foo bar")] [(lit "a.js", lit "foo baz qux")] = [].
Proof. vm_compute. reflexivity. Qed.

Example generateDiff_sample :
  generateDiff [(lit "a.js", lit "init(region)")]
               [(lit "a.js", lit "init(region, euCountry)"); (lit "b.js", lit "x")]
  = CHANGED_OPEN ++ lit "a.js" ++ CHANGED_CLOSE
    ++ ADDED_TOKENS ++ lit "euCountry" ++ [NEWLINE]
    ++ ADDED_MODULE ++ lit "b.js" ++ [NEWLINE].
Proof. vm_compute. reflexivity. Qed.

Lemma files_get_In files path :
  is_Some (files_get files path) <-> exists content, In (path, content) files.
Proof.
  induction files as [|[k v] rest IH]; cbn [files_get In].
  - split; [intros [? ?]; discriminate | intros [? []]].
  - destruct (jsstring_eqb k path) eqn:E.
    + apply jsstring_eqb_true in E. subst k. split; eauto.
    + rewrite IH. split.
      * intros [c Hc]. eauto.
      * intros [c [Hc|Hc]]; [|eauto].
        injection Hc as -> _. rewrite (proj2 (jsstring_eqb_true path path) eq_refl) in E.
        discriminate.
Qed.

(** The loop of [generateDiff] renders the entries one after the other. *)
Lemma generateDiff_entries oldFiles newFiles :
  generateDiff oldFiles newFiles
  = substring0 (flat_map render_entry (diff_entries oldFiles newFiles)) 3000.
Proof.
  unfold generateDiff, diff_entries. f_equal.
  change (flat_map render_entry
            (map (fun '(path, newContent) => diff_entry oldFiles path newContent) newFiles))
    with ([] ++ flat_map render_entry
            (map (fun '(path, newContent) => diff_entry oldFiles path newContent) newFiles)).
  generalize (@nil N) as acc.
  induction newFiles as [|[path c] rest IH]; intros acc; cbn [fold_left map flat_map].
  - now rewrite app_nil_r.
  - rewrite IH. now rewrite <- app_assoc.
Qed.

(** C6: whatever the two script maps, the text [generateDiff] returns is at
    most 3000 code units long. *)
Theorem generateDiff_length oldFiles newFiles :
  (length (generateDiff oldFiles newFiles) <= 3000)%nat.
Proof. unfold generateDiff, substring0. rewrite length_take. lia. Qed.

Lemma only_in_long mine theirs token :
  In token (only_in mine theirs) ->
  (3 < length token)%nat /\ In token mine /\ set_has theirs token = false.
Proof.
  unfold only_in. rewrite filter_In. intros [Hin H].
  apply andb_prop in H. destruct H as [Hhas Hlen].
  apply Nat.ltb_lt in Hlen. apply negb_true_iff in Hhas. auto.
Qed.

(** C7: the diff text is the rendering, cut at 3000 code units, of the
    entries of the diff, and in every changed-module entry each token of
    the added list and of the removed list, and so each token the entry
    lists, is longer than three code units; the empty token in particular
    is never listed. *)
Theorem generateDiff_token_filter oldFiles newFiles :
  generateDiff oldFiles newFiles
  = substring0 (flat_map render_entry (diff_entries oldFiles newFiles)) 3000
  /\ forall e, In e (diff_entries oldFiles newFiles) ->
       (forall path added removed token,
           e = ChangedModule path added removed ->
           In token added \/ In token removed -> (3 < length token)%nat)
       /\ (forall token, In token (entry_tokens e) ->
             (3 < length token)%nat /\ token <> []).
Proof.
  split; [apply generateDiff_entries|].
  intros e He. unfold diff_entries in He. apply in_map_iff in He.
  destruct He as ([p c] & <- & _).
  assert (Hall : forall path added removed token,
             diff_entry oldFiles p c = ChangedModule path added removed ->
             In token added \/ In token removed -> (3 < length token)%nat).
  { unfold diff_entry. intros path added removed token.
    destruct (files_get oldFiles p) as [[|o old]|]; try discriminate.
    destruct (negb _); try discriminate.
    destruct (_ || _); try discriminate.
    intros [= _ <- <-] [H|H]; now apply only_in_long in H. }
  split; [exact Hall|].
  intros token Hin. destruct (diff_entry oldFiles p c) eqn:E; cbn in Hin; try easy.
  assert (3 < length token)%nat.
  { apply (Hall _ _ _ token eq_refl).
    apply in_app_or in Hin. destruct Hin as [H|H]; [left|right];
      apply list_elem_of_In in H; apply list_elem_of_In;
      eapply subseteq_take; eassumption. }
  split; [assumption|]. intros ->. cbn in *. lia.
Qed.

Lemma generateDiff_token_filter_witness :
  (3 < length (lit "euCountry"))%nat /\ lit "euCountry" <> [].
Proof.
  apply (proj2 (generateDiff_token_filter
                  [(lit "a.js", lit "init(region)")]
                  [(lit "a.js", lit "init(region, euCountry)")])
               (ChangedModule (lit "a.js") [lit "euCountry"] [])).
  - vm_compute. left. reflexivity.
  - vm_compute. left. reflexivity.
Defined.

Lemma split_tokens_chars in_sep acc str piece :
  forallb is_token_char acc = true ->
  In piece (split_tokens in_sep acc str) ->
  forallb is_token_char piece = true.
Proof.
  revert in_sep acc. induction str as [|c rest IH]; intros in_sep acc Hacc;
    cbn [split_tokens].
  - intros [<-|[]]. apply forallb_forall. intros x Hx. apply in_rev in Hx.
    rewrite forallb_forall in Hacc. auto.
  - destruct (is_token_char c) eqn:Ec.
    + apply IH. cbn [forallb]. now rewrite Ec, Hacc.
    + destruct in_sep; [now apply IH|].
      intros [<-|Hin]; [|now apply (IH true [])].
      apply forallb_forall. intros x Hx. apply in_rev in Hx.
      rewrite forallb_forall in Hacc. auto.
Qed.

Lemma set_from_subset l x : In x (set_from l) -> In x l.
Proof.
  unfold set_from.
  assert (H : forall acc, In x (fold_left set_add l acc) -> In x acc \/ In x l).
  { induction l as [|y l IH]; intros acc; cbn [fold_left]; [auto|].
    intros Hin. destruct (IH _ Hin) as [Hacc|Hl]; [|right; now right].
    unfold set_add in Hacc. destruct (set_has acc y); [auto|].
    apply in_app_or in Hacc. destruct Hacc as [?|[<-|[]]]; [auto | right; now left]. }
  intros Hin. destruct (H [] Hin) as [[]|]; assumption.
Qed.

(** A token holds token characters only: no comma, space or line break, so
    the tokens of a line can be told apart. *)
Lemma tokenize_chars str token :
  In token (tokenize str) -> forallb is_token_char token = true.
Proof.
  intros Hin. apply set_from_subset in Hin.
  now apply (split_tokens_chars false [] str).
Qed.

Lemma entry_tokens_chars oldFiles newFiles e token :
  In e (diff_entries oldFiles newFiles) -> In token (entry_tokens e) ->
  forallb is_token_char token = true.
Proof.
  intros He Hin. unfold diff_entries in He. apply in_map_iff in He.
  destruct He as ([p c] & <- & _). unfold diff_entry in Hin.
  destruct (files_get oldFiles p) as [[|o old]|]; try easy.
  destruct (negb _); try easy. destruct (_ || _); try easy.
  cbn [entry_tokens] in Hin.
  apply in_app_or in Hin.
  destruct Hin as [H|H]; apply list_elem_of_In in H;
    apply (subseteq_take 40) in H; apply list_elem_of_In in H;
    apply only_in_long in H; destruct H as (_ & H & _);
    now apply tokenize_chars in H.
Qed.

Lemma generateDiff_ext oldFiles oldFiles' newFiles :
  (forall path content, In (path, content) newFiles ->
                        files_get oldFiles' path = files_get oldFiles path) ->
  diff_entries oldFiles' newFiles = diff_entries oldFiles newFiles.
Proof.
  intros Hagree. unfold diff_entries. apply map_ext_in.
  intros [path c] Hin. unfold diff_entry. now rewrite (Hagree path c Hin).
Qed.

(** C8: the diff reads the old map only at the module names of the new map.
    Two old maps that agree on those names give the same diff text, so a
    module that only the old map has adds nothing to it; and every module
    an entry of the diff names is a module of the new map. *)
Theorem generateDiff_new_modules_only oldFiles oldFiles' newFiles :
  (forall path, is_Some (files_get newFiles path) ->
                files_get oldFiles' path = files_get oldFiles path) ->
  generateDiff oldFiles' newFiles = generateDiff oldFiles newFiles
  /\ forall e path, In e (diff_entries oldFiles newFiles) ->
                    entry_path e = Some path ->
                    is_Some (files_get newFiles path).
Proof.
  intros Hagree. split.
  - rewrite !generateDiff_entries. f_equal. f_equal.
    apply generateDiff_ext. intros path c Hin. apply Hagree.
    apply files_get_In. eauto.
  - intros e path He Hp. unfold diff_entries in He. apply in_map_iff in He.
    destruct He as ([p c] & <- & Hin).
    assert (path = p) as ->.
    { unfold diff_entry in Hp.
      destruct (files_get oldFiles p) as [[|o old]|]; cbn in Hp; try congruence.
      destruct (negb _); cbn in Hp; try congruence.
      destruct (_ || _); cbn in Hp; congruence. }
    apply files_get_In. eauto.
Qed.

Lemma generateDiff_new_modules_only_witness :
  generateDiff [(lit "gone.js", lit "removedFunction()"); (lit "a.js", lit "init(region)")]
               [(lit "a.js", lit "init(region, euCountry)")]
  = generateDiff [(lit "a.js", lit "init(region)")]
                 [(lit "a.js", lit "init(region, euCountry)")].
Proof.
  apply generateDiff_new_modules_only.
  intros path [c Hc]. cbn [files_get] in *.
  destruct (jsstring_eqb (lit "a.js") path) eqn:E; [|discriminate].
  apply jsstring_eqb_true in E. subst path. reflexivity.
Defined.

(** ** Running computations *)

Lemma add_trace_nil st : add_trace st [] = st.
Proof. destruct st. unfold add_trace. cbn. now rewrite app_nil_r. Qed.

Lemma add_trace_app st a b :
  add_trace (add_trace st a) b = add_trace st (a ++ b).
Proof. unfold add_trace. cbn. now rewrite app_assoc. Qed.

Lemma kv_add_trace st evs : kv (add_trace st evs) = kv st.
Proof. reflexivity. Qed.

Lemma bind_returned {A B} (c : Async A) (k : A -> Async B) st a st' :
  c st = (Returned a, st') -> bind c k st = k a st'.
Proof. unfold bind. now intros ->. Qed.

Lemma bind_thrown {A B} (c : Async A) (k : A -> Async B) st st' :
  c st = (Thrown, st') -> bind c k st = (Thrown, st').
Proof. unfold bind. now intros ->. Qed.

Lemma emit_run e st : emit e st = (Returned tt, add_trace st [e]).
Proof. reflexivity. Qed.

Lemma console_run msg st : console msg st = (Returned tt, add_trace st [Log msg]).
Proof. reflexivity. Qed.

Lemma kv_get_run key st :
  kv_get key st = (Returned (kv st !! key), add_trace st [KvGet key]).
Proof. reflexivity. Qed.

Lemma for_each_emit_run (f : jsstring -> Event) l st :
  for_each l (fun x => emit (f x)) st = (Returned tt, add_trace st (map f l)).
Proof.
  revert st. induction l as [|x l IH]; intros st; cbn [for_each map].
  - unfold ret. now rewrite add_trace_nil.
  - rewrite (bind_returned _ _ _ _ _ (emit_run (f x) st)), IH.
    now rewrite add_trace_app.
Qed.

Section Runs.

Context {json : JSON}.
Variable w : World.

Lemma script_done_run scriptPaths files i st :
  script_done w scriptPaths files i st
  = (Returned (assigned w scriptPaths files i),
     add_trace st (complaint w scriptPaths i)).
Proof.
  unfold script_done, assigned, complaint.
  destruct (scriptPaths !! i) as [path|];
    [|unfold ret; now rewrite add_trace_nil].
  destruct (script_reply w i path) as [|status [content|]];
    try reflexivity.
  unfold ret. now rewrite add_trace_nil.
Qed.

Lemma fold_script_done_run scriptPaths order files st :
  fold_async (script_done w scriptPaths) order files st
  = (Returned (fold_left (assigned w scriptPaths) order files),
     add_trace st (flat_map (complaint w scriptPaths) order)).
Proof.
  revert files st. induction order as [|i order IH]; intros files st;
    cbn [fold_async fold_left flat_map].
  - unfold ret. now rewrite add_trace_nil.
  - rewrite (bind_returned _ _ _ _ _ (script_done_run scriptPaths files i st)).
    now rewrite IH, add_trace_app.
Qed.

Lemma fetchJsContents_steps scriptPaths st :
  fetchJsContents w scriptPaths st
  = (Returned (fold_left (assigned w scriptPaths) (completion_order w) []),
     add_trace st (map FetchScript scriptPaths
                   ++ flat_map (complaint w scriptPaths) (completion_order w))).
Proof.
  unfold fetchJsContents.
  rewrite (bind_returned _ _ _ _ _ (for_each_emit_run FetchScript scriptPaths st)).
  now rewrite fold_script_done_run, add_trace_app.
Qed.

Lemma downloaded_steps scriptPaths :
  downloaded w scriptPaths
  = fold_left (assigned w scriptPaths) (completion_order w) [].
Proof.
  unfold downloaded, result_of. now rewrite fetchJsContents_steps.
Qed.

Lemma download_trace_steps scriptPaths :
  download_trace w scriptPaths
  = map FetchScript scriptPaths
    ++ flat_map (complaint w scriptPaths) (completion_order w).
Proof.
  unfold download_trace, effects_of. now rewrite fetchJsContents_steps.
Qed.

(** The downloads never throw, and what they return and log does not depend
    on the state they start from. *)
Lemma fetchJsContents_run scriptPaths st :
  fetchJsContents w scriptPaths st
  = (Returned (downloaded w scriptPaths),
     add_trace st (download_trace w scriptPaths)).
Proof.
  now rewrite fetchJsContents_steps, downloaded_steps, download_trace_steps.
Qed.

Lemma download_trace_quiet scriptPaths :
  forallb quiet (download_trace w scriptPaths) = true.
Proof.
  rewrite download_trace_steps, forallb_app. apply andb_true_intro. split.
  - induction scriptPaths; [reflexivity | assumption].
  - induction (completion_order w) as [|i l IH]; [reflexivity|].
    cbn [flat_map]. rewrite forallb_app, IH, andb_true_r.
    unfold complaint. destruct (scriptPaths !! i); [|reflexivity].
    now destruct (script_reply w i l0) as [|? [|]].
Qed.

Lemma getAIPatchSummary_run diffText st :
  getAIPatchSummary w diffText st
  = (Returned (summary_of w diffText),
     add_trace st (summary_trace w diffText)).
Proof.
  unfold summary_of, summary_trace, result_of, effects_of, getAIPatchSummary.
  destruct (negb (truthy (Some (trim diffText)))).
  - unfold ret. cbn. now rewrite add_trace_nil.
  - unfold try_catch, bind, emit, console, emit, ret, throw.
    destruct (summarizer_reply w (PROMPT_HEAD ++ diffText));
      cbn; unfold add_trace; cbn; rewrite <- ?app_assoc; reflexivity.
Qed.

(** The summariser never calls the notifier and never writes the store. *)
Lemma summary_trace_shape diffText :
  summary_trace w diffText = []
  \/ summary_trace w diffText = [PostSummarizer (PROMPT_HEAD ++ diffText)]
  \/ summary_trace w diffText
     = [PostSummarizer (PROMPT_HEAD ++ diffText); Log LogSummaryError].
Proof.
  unfold summary_trace, effects_of, getAIPatchSummary.
  destruct (negb (truthy (Some (trim diffText)))); [now left|].
  unfold try_catch, bind, emit, console, emit, ret, throw.
  destruct (summarizer_reply w (PROMPT_HEAD ++ diffText)); cbn; auto.
Qed.

End Runs.

(** ** Summariser *)

Lemma trim_start_blank s : forallb is_js_space s = true -> trim_start s = [].
Proof.
  induction s as [|c s IH]; [reflexivity|]. cbn [forallb trim_start].
  intros H. apply andb_prop in H. destruct H as [-> H]. auto.
Qed.

Lemma trim_start_nil s : trim_start s = [] -> forallb is_js_space s = true.
Proof.
  induction s as [|c s IH]; [reflexivity|]. cbn [forallb trim_start].
  destruct (is_js_space c); [exact IH | discriminate].
Qed.

Lemma trim_start_head s c t : trim_start s = c :: t -> is_js_space c = false.
Proof.
  induction s as [|x s IH]; [discriminate|]. cbn [trim_start].
  destruct (is_js_space x) eqn:E; [exact IH | now intros [= <- _]].
Qed.

Lemma trim_blank s : trim s = [] <-> forallb is_js_space s = true.
Proof.
  unfold trim. split.
  - intros H. apply (f_equal (@rev N)) in H. rewrite rev_involutive in H.
    cbn in H. apply trim_start_nil in H.
    destruct (trim_start s) as [|c t] eqn:E; [now apply trim_start_nil|].
    apply trim_start_head in E. cbn [rev] in H.
    rewrite forallb_app in H. cbn in H. rewrite E in H.
    rewrite andb_false_r in H. discriminate.
  - intros H. now rewrite (trim_start_blank s H).
Qed.

(** C9: for a diff text that is empty or made of white space only, the
    summariser returns its fixed sentence and leaves the state as it
    was: it adds no event, so it makes no call to the text-generation
    endpoint. *)
Theorem getAIPatchSummary_blank (w : World) diffText st :
  forallb is_js_space diffText = true ->
  getAIPatchSummary w diffText st = (Returned FALLBACK_TRIVIAL, st).
Proof.
  intros Hblank. unfold getAIPatchSummary.
  now rewrite (proj2 (trim_blank diffText) Hblank).
Qed.

Lemma getAIPatchSummary_blank_witness :
  getAIPatchSummary (sample_world sample_page Rejected)
    [0x20; 0x0a; 0x09; 0x3000]%N initial
  = (Returned FALLBACK_TRIVIAL, initial).
Proof. apply getAIPatchSummary_blank. reflexivity. Defined.

(** Any other diff text is sent to the endpoint, once. *)
Lemma getAIPatchSummary_calls (w : World) diffText :
  forallb is_js_space diffText = false ->
  exists rest, summary_trace w diffText
               = PostSummarizer (PROMPT_HEAD ++ diffText) :: rest
               /\ forallb no_call rest = true.
Proof.
  intros Hblank. unfold summary_trace, effects_of, getAIPatchSummary.
  destruct (trim diffText) as [|c t] eqn:E.
  - apply trim_blank in E. congruence.
  - cbn [truthy negb]. unfold try_catch, bind, emit, console, emit, ret, throw.
    destruct (summarizer_reply w (PROMPT_HEAD ++ diffText)); cbn; eauto.
Qed.

(** ** Orchestrator *)

Section Orchestrator.

Context {json : JSON}.
Variable w : World.

Lemma fetchPageData_ok st status html :
  page_reply w = Replied status (Some html) -> http_ok status = true ->
  fetchPageData w st = (Returned (parsePage html), add_trace st [FetchPage]).
Proof.
  intros Hpage Hok. unfold fetchPageData.
  rewrite (bind_returned _ _ _ _ _ (emit_run FetchPage st)).
  now rewrite Hpage, Hok.
Qed.

(** A page request that rejects, answers with a status outside 200..299, or
    whose body cannot be read makes [fetchPageData] throw. *)
Lemma fetchPageData_fails st :
  (forall status html, page_reply w = Replied status (Some html) ->
                       http_ok status = false) ->
  fetchPageData w st = (Thrown, add_trace st [FetchPage]).
Proof.
  intros Hbad. unfold fetchPageData.
  rewrite (bind_returned _ _ _ _ _ (emit_run FetchPage st)).
  destruct (page_reply w) as [|status [html|]]; try reflexivity.
  - now rewrite (Hbad status html eq_refl).
  - now destruct (http_ok status).
Qed.

Lemma run_page_failure st :
  (forall status html, page_reply w = Replied status (Some html) ->
                       http_ok status = false) ->
  checkTask w st = (Returned tt, add_trace st [FetchPage; Log LogRunError]).
Proof.
  intros Hbad. unfold checkTask, try_catch.
  rewrite (bind_thrown _ _ _ _ (fetchPageData_fails st Hbad)).
  now rewrite console_run, add_trace_app.
Qed.

Lemma run_without_buildId st status html :
  page_reply w = Replied status (Some html) -> http_ok status = true ->
  match_buildId html = None ->
  checkTask w st = (Returned tt, add_trace st [FetchPage]).
Proof.
  intros Hpage Hok Hnone. unfold checkTask, try_catch.
  rewrite (bind_returned _ _ _ _ _ (fetchPageData_ok st status html Hpage Hok)).
  cbn [pd_buildId parsePage]. now rewrite Hnone.
Qed.

Lemma kv_put_run key value st :
  kv_put key value st
  = (Returned tt, {| kv := <[key := value]> (kv st);
                     trace := trace st ++ [KvPut key value] |}).
Proof. reflexivity. Qed.

Lemma sendDiscordNotification_run oldId newId summary st :
  sendDiscordNotification w oldId newId summary st
  = (match notifier_reply w oldId newId summary with
     | Rejected => Thrown
     | Replied _ _ => Returned tt
     end, add_trace st [PostNotifier oldId newId summary]).
Proof.
  unfold sendDiscordNotification.
  rewrite (bind_returned _ _ _ _ _ (emit_run _ st)).
  now destruct (notifier_reply w oldId newId summary).
Qed.

Lemma parse_last_ok store st :
  stored_files_parse store ->
  parse_last (store !! "LAST_JS_FILES"%string) st
  = (Returned (stored_files store), st).
Proof.
  unfold stored_files_parse, stored_files, parse_last.
  destruct (store !! "LAST_JS_FILES"%string) as [[|c s]|]; try reflexivity.
  destruct (JSON_parse (c :: s)); [reflexivity | congruence].
Qed.

Lemma parse_last_fails store st :
  ~ stored_files_parse store ->
  parse_last (store !! "LAST_JS_FILES"%string) st = (Thrown, st).
Proof.
  unfold stored_files_parse, parse_last.
  destruct (store !! "LAST_JS_FILES"%string) as [[|c s]|]; try tauto.
  destruct (JSON_parse (c :: s)); [intros H; exfalso; apply H; discriminate|].
  reflexivity.
Qed.

Lemma stored_files_parse_dec store :
  stored_files_parse store \/ ~ stored_files_parse store.
Proof.
  unfold stored_files_parse.
  destruct (store !! "LAST_JS_FILES"%string) as [[|c s]|]; auto.
  destruct (JSON_parse (c :: s)); [left; discriminate | right; tauto].
Qed.

Lemma reads_quiet html : forallb quiet (reads w html) = true.
Proof.
  unfold reads. cbn [app forallb quiet andb].
  rewrite forallb_app, download_trace_quiet. reflexivity.
Qed.

Lemma quiet_no_call evs : forallb quiet evs = true -> forallb no_call evs = true.
Proof.
  induction evs as [|e evs IH]; [reflexivity|]. cbn [forallb].
  intros H. apply andb_prop in H. destruct H as [He H].
  rewrite (IH H), andb_true_r. destruct e; try reflexivity; discriminate.
Qed.

Lemma reads_assoc html :
  ([FetchPage] ++ download_trace w (match_scripts html)
   ++ [KvGet "LAST_BUILD_ID"]) ++ [KvGet "LAST_JS_FILES"]
  = reads w html.
Proof. unfold reads. cbn [app]. now rewrite <- app_assoc. Qed.

Ltac run_to_reads Hpage Hok Hbuild :=
  unfold checkTask, try_catch;
  rewrite (bind_returned _ _ _ _ _ (fetchPageData_ok _ _ _ Hpage Hok));
  cbn [pd_buildId pd_scriptPaths parsePage]; rewrite Hbuild;
  rewrite (bind_returned _ _ _ _ _ (fetchJsContents_run _ _ _));
  rewrite (bind_returned _ _ _ _ _ (kv_get_run _ _));
  rewrite (bind_returned _ _ _ _ _ (kv_get_run _ _));
  rewrite !add_trace_app, !kv_add_trace, reads_assoc.

Lemma run_changed st status html buildId lastBuildId :
  page_reply w = Replied status (Some html) -> http_ok status = true ->
  match_buildId html = Some buildId ->
  kv st !! "LAST_BUILD_ID"%string = Some lastBuildId ->
  lastBuildId <> [] -> lastBuildId <> buildId ->
  stored_files_parse (kv st) ->
  let files := downloaded w (match_scripts html) in
  let summary := summary_of w (generateDiff (stored_files (kv st)) files) in
  checkTask w st
  = (Returned tt,
     match notifier_reply w lastBuildId buildId summary with
     | Replied _ _ =>
         {| kv := persisted (kv st) buildId files;
            trace := trace st ++ attempt w st html lastBuildId buildId
                     ++ [KvPut "LAST_BUILD_ID" buildId;
                         KvPut "LAST_JS_FILES" (JSON_stringify files)] |}
     | Rejected =>
         {| kv := kv st;
            trace := trace st ++ attempt w st html lastBuildId buildId
                     ++ [Log LogRunError] |}
     end).
Proof.
  intros Hpage Hok Hbuild Hlast Hne Hdiff Hparse files summary.
  destruct (match_buildId_found _ _ Hbuild) as [_ Hb].
  destruct buildId as [|b uild]; [contradiction|].
  destruct lastBuildId as [|l ast]; [contradiction|].
  run_to_reads Hpage Hok Hbuild.
  rewrite (bind_returned _ _ _ _ _ (parse_last_ok _ _ Hparse)).
  rewrite Hlast, (jsstring_eqb_false (b :: uild) (l :: ast)) by congruence.
  cbn [negb].
  rewrite (bind_returned _ _ _ _ _ (console_run _ _)).
  rewrite (bind_returned _ _ _ _ _ (console_run _ _)).
  rewrite (bind_returned _ _ _ _ _ (console_run _ _)).
  rewrite (bind_returned _ _ _ _ _ (getAIPatchSummary_run _ _ _)).
  fold files. fold summary.
  pose proof (sendDiscordNotification_run (l :: ast) (b :: uild) summary) as Hsend.
  destruct (notifier_reply w (l :: ast) (b :: uild) summary) as [|s t].
  - rewrite (bind_thrown _ _ _ _ (Hsend _)), console_run.
    rewrite !add_trace_app. unfold add_trace, attempt. fold files. fold summary.
    cbn [kv trace]. rewrite <- !app_assoc. reflexivity.
  - rewrite (bind_returned _ _ _ _ _ (Hsend _)).
    rewrite (bind_returned _ _ _ _ _ (kv_put_run _ _ _)), kv_put_run.
    rewrite !add_trace_app. unfold add_trace, attempt, persisted.
    fold files. fold summary. cbn [kv trace]. rewrite <- !app_assoc. reflexivity.
Qed.

Lemma run_same_build st status html buildId :
  page_reply w = Replied status (Some html) -> http_ok status = true ->
  match_buildId html = Some buildId ->
  kv st !! "LAST_BUILD_ID"%string = Some buildId ->
  checkTask w st
  = (Returned tt,
     add_trace st (reads w html ++ [Log (LogNoChange buildId)]))
  \/ ~ stored_files_parse (kv st)
     /\ checkTask w st
        = (Returned tt, add_trace st (reads w html ++ [Log LogRunError])).
Proof.
  intros Hpage Hok Hbuild Hlast.
  destruct (match_buildId_found _ _ Hbuild) as [_ Hb].
  destruct buildId as [|b uild]; [contradiction|].
  destruct (stored_files_parse_dec (kv st)) as [Hparse|Hparse]; [left | right; split; [assumption|]].
  - run_to_reads Hpage Hok Hbuild.
    rewrite (bind_returned _ _ _ _ _ (parse_last_ok _ _ Hparse)).
    rewrite Hlast, jsstring_eqb_refl. cbn [negb].
    now rewrite console_run, add_trace_app.
  - run_to_reads Hpage Hok Hbuild.
    rewrite (bind_thrown _ _ _ _ (parse_last_fails _ _ Hparse)).
    now rewrite console_run, add_trace_app.
Qed.

Lemma run_first_start st status html buildId :
  page_reply w = Replied status (Some html) -> http_ok status = true ->
  match_buildId html = Some buildId ->
  truthy (kv st !! "LAST_BUILD_ID"%string) = false ->
  let files := downloaded w (match_scripts html) in
  checkTask w st
  = (Returned tt,
     {| kv := persisted (kv st) buildId files;
        trace := trace st ++ reads w html
                 ++ [Log (LogBootstrap buildId);
                     KvPut "LAST_BUILD_ID" buildId;
                     KvPut "LAST_JS_FILES" (JSON_stringify files)] |})
  \/ ~ stored_files_parse (kv st)
     /\ checkTask w st
        = (Returned tt, add_trace st (reads w html ++ [Log LogRunError])).
Proof.
  intros Hpage Hok Hbuild Hlast files.
  destruct (match_buildId_found _ _ Hbuild) as [_ Hb].
  destruct buildId as [|b uild]; [contradiction|].
  destruct (stored_files_parse_dec (kv st)) as [Hparse|Hparse]; [left | right; split; [assumption|]].
  - run_to_reads Hpage Hok Hbuild.
    rewrite (bind_returned _ _ _ _ _ (parse_last_ok _ _ Hparse)).
    destruct (kv st !! "LAST_BUILD_ID"%string) as [[|l ast]|];
      [ | discriminate Hlast | ];
      rewrite (bind_returned _ _ _ _ _ (console_run _ _));
      rewrite (bind_returned _ _ _ _ _ (kv_put_run _ _ _)), kv_put_run;
      rewrite !add_trace_app; unfold add_trace, persisted; fold files;
      cbn [kv trace]; rewrite <- !app_assoc; reflexivity.
  - run_to_reads Hpage Hok Hbuild.
    rewrite (bind_thrown _ _ _ _ (parse_last_fails _ _ Hparse)).
    now rewrite console_run, add_trace_app.
Qed.

End Orchestrator.

(** C5: when the page is served but its markup holds no match of the build
    marker, the run returns normally after the page request alone: nothing
    is thrown or logged as an error, no script is downloaded, neither the
    summariser nor the notifier is called, and the store is left as it
    was. *)
Theorem checkTask_missing_buildId {json : JSON} (w : World) st status html :
  page_reply w = Replied status (Some html) -> http_ok status = true ->
  ~ has_buildId_marker html ->
  checkTask w st = (Returned tt, add_trace st [FetchPage]).
Proof.
  intros Hpage Hok Hno. apply (run_without_buildId w st status html Hpage Hok).
  now apply match_buildId_None.
Qed.

Lemma checkTask_missing_buildId_witness :
  checkTask (json := sample_codec)
    (sample_world sample_page_unmarked (Replied 204 None)) (state_of sample_store)
  = (Returned tt, add_trace (state_of sample_store) [FetchPage]).
Proof.
  apply (checkTask_missing_buildId _ _ 200%N sample_page_unmarked).
  - reflexivity.
  - reflexivity.
  - apply match_buildId_None. vm_compute. reflexivity.
Defined.

(** C3: when the build identifier of the page equals the stored
    [LAST_BUILD_ID], the run returns with the store as it was and with
    quiet events only: no diff is reported, the summariser and the notifier
    are not called, and no key is written, whatever the downloaded scripts
    and the stored ones are.  With a stored script blob that parses, the
    run is exactly the reads followed by the no-change report. *)
Theorem checkTask_same_buildId {json : JSON} (w : World) st status html buildId :
  page_reply w = Replied status (Some html) -> http_ok status = true ->
  match_buildId html = Some buildId ->
  kv st !! "LAST_BUILD_ID"%string = Some buildId ->
  exists events,
    checkTask w st = (Returned tt, add_trace st events)
    /\ forallb quiet events = true
    /\ (stored_files_parse (kv st) ->
        events = reads w html ++ [Log (LogNoChange buildId)]).
Proof.
  intros Hpage Hok Hbuild Hlast.
  destruct (run_same_build w st status html buildId Hpage Hok Hbuild Hlast)
    as [E | [Hbad E]].
  - exists (reads w html ++ [Log (LogNoChange buildId)]).
    split; [exact E|]. split; [|reflexivity].
    now rewrite forallb_app, reads_quiet.
  - exists (reads w html ++ [Log LogRunError]).
    split; [exact E|]. split; [|tauto].
    now rewrite forallb_app, reads_quiet.
Qed.

Lemma checkTask_same_buildId_witness :
  exists events,
    checkTask (json := sample_codec)
      (sample_world sample_page (Replied 204 None)) (state_of sample_store_current)
    = (Returned tt, add_trace (state_of sample_store_current) events)
    /\ forallb quiet events = true.
Proof.
  destruct (checkTask_same_buildId (json := sample_codec) (sample_world sample_page (Replied 204 None))
              (state_of sample_store_current) 200%N sample_page (lit "build-2"))
    as (events & E & Hq & _).
  - reflexivity.
  - reflexivity.
  - vm_compute. reflexivity.
  - vm_compute. reflexivity.
  - exists events. split; assumption.
Defined.

(** C4: in a run that finds no prior build identifier in the store (the key
    is absent or empty), neither the summariser nor the notifier is ever
    called; and when the page yields a build identifier (and the stored
    script blob, if any, parses) the run writes that identifier to
    [LAST_BUILD_ID] and the serialised map of the downloaded scripts to
    [LAST_JS_FILES], and does nothing else after its reads. *)
Theorem checkTask_bootstrap {json : JSON} (w : World) st :
  truthy (kv st !! "LAST_BUILD_ID"%string) = false ->
  exists events store,
    checkTask w st = (Returned tt, {| kv := store; trace := trace st ++ events |})
    /\ forallb no_call events = true
    /\ forall status html buildId,
        page_reply w = Replied status (Some html) -> http_ok status = true ->
        match_buildId html = Some buildId ->
        stored_files_parse (kv st) ->
        let files := downloaded w (match_scripts html) in
        store = persisted (kv st) buildId files
        /\ events = reads w html
                    ++ [Log (LogBootstrap buildId);
                        KvPut "LAST_BUILD_ID" buildId;
                        KvPut "LAST_JS_FILES" (JSON_stringify files)].
Proof.
  intros Hlast.
  assert (Hfail :
    (forall status html, page_reply w = Replied status (Some html) ->
                         http_ok status = false) ->
    exists events store,
      checkTask w st = (Returned tt, {| kv := store; trace := trace st ++ events |})
      /\ forallb no_call events = true
      /\ forall status html buildId,
          page_reply w = Replied status (Some html) -> http_ok status = true ->
          match_buildId html = Some buildId ->
          stored_files_parse (kv st) ->
          let files := downloaded w (match_scripts html) in
          store = persisted (kv st) buildId files
          /\ events = reads w html
                      ++ [Log (LogBootstrap buildId);
                          KvPut "LAST_BUILD_ID" buildId;
                          KvPut "LAST_JS_FILES" (JSON_stringify files)]).
  { intros Hbad. exists [FetchPage; Log LogRunError], (kv st).
    split; [now apply run_page_failure|]. split; [reflexivity|].
    intros status html buildId Hpage Hok. rewrite (Hbad _ _ Hpage) in Hok.
    discriminate. }
  destruct (page_reply w) as [|status [html|]] eqn:Hpage;
    try (apply Hfail; intros; discriminate).
  destruct (http_ok status) eqn:Hok;
    [|apply Hfail; intros ? ? [= <- _]; assumption].
  clear Hfail.
  destruct (match_buildId html) as [buildId|] eqn:Hbuild.
  - destruct (run_first_start w st status html buildId Hpage Hok Hbuild Hlast)
      as [E | [Hbad E]].
    + eexists _, _. split; [exact E|]. split.
      * rewrite forallb_app, (quiet_no_call _ (reads_quiet w html)). reflexivity.
      * intros status' html' buildId' [= <- <-] _ Hbuild' _.
        rewrite Hbuild in Hbuild'. injection Hbuild' as <-. split; reflexivity.
    + exists (reads w html ++ [Log LogRunError]), (kv st).
      split; [exact E|]. split.
      * rewrite forallb_app, (quiet_no_call _ (reads_quiet w html)). reflexivity.
      * intros status' html' buildId' _ _ _ Hparse. contradiction.
  - exists [FetchPage], (kv st).
    split; [exact (run_without_buildId w st status html Hpage Hok Hbuild)|].
    split; [reflexivity|].
    intros status' html' buildId' [= <- <-] _ Hbuild'. congruence.
Qed.

Lemma checkTask_bootstrap_witness :
  let w := sample_world sample_page (Replied 204 None) in
  let files := downloaded w (match_scripts sample_page) in
  kv (snd (checkTask (json := sample_codec) w initial))
  = persisted (json := sample_codec) ∅ (lit "build-2") files
  /\ forallb no_call (trace (snd (checkTask (json := sample_codec) w initial))) = true.
Proof.
  intros w files.
  destruct (checkTask_bootstrap (json := sample_codec) w initial)
    as (events & store & E & Hcalls & Hrun).
  - reflexivity.
  - destruct (Hrun 200%N sample_page (lit "build-2")) as [-> ->].
    + reflexivity.
    + reflexivity.
    + vm_compute. reflexivity.
    + exact I.
    + rewrite E. cbn [snd kv trace]. split; [reflexivity | exact Hcalls].
Defined.

(** C1 (as stated, it fails): build [build-2] is published while the store
    holds [build-1], and the POST to the webhook rejects.  The run attempts
    the notification, ends in the handler of [checkTask], and leaves both
    keys as they were: [LAST_BUILD_ID] is not advanced to [build-2]. *)
Lemma checkTask_notifier_rejects :
  let w := sample_world sample_page Rejected in
  let st' := snd (checkTask (json := sample_codec) w (state_of sample_store)) in
  match_buildId sample_page = Some (lit "build-2")
  /\ sample_store !! "LAST_BUILD_ID"%string = Some (lit "build-1")
  /\ In (PostNotifier (lit "build-1") (lit "build-2") (lit "adds a country check"))
        (trace st')
  /\ last (trace st') = Some (Log LogRunError)
  /\ kv st' !! "LAST_BUILD_ID"%string = Some (lit "build-1")
  /\ kv st' !! "LAST_BUILD_ID"%string <> Some (lit "build-2")
  /\ kv st' !! "LAST_JS_FILES"%string = sample_store !! "LAST_JS_FILES"%string.
Proof.
  vm_compute. repeat split; try discriminate.
  do 12 (try (left; reflexivity); right).
Qed.

(** C1 (amended): in the changed path (the page yields a build identifier
    that differs from the non-empty stored one, and the stored script blob
    parses) the run makes one attempt to notify and persists only after
    that call returned.  When the POST resolves, whatever its status, both
    keys are written: [LAST_BUILD_ID] takes the new identifier and
    [LAST_JS_FILES] the serialised new script map.  When the POST rejects,
    the error reaches the handler of [checkTask], is logged, and neither key
    is written. *)
Theorem checkTask_changed {json : JSON} (w : World) st status html
    buildId lastBuildId :
  page_reply w = Replied status (Some html) -> http_ok status = true ->
  match_buildId html = Some buildId ->
  kv st !! "LAST_BUILD_ID"%string = Some lastBuildId ->
  lastBuildId <> [] -> lastBuildId <> buildId ->
  stored_files_parse (kv st) ->
  let files := downloaded w (match_scripts html) in
  let summary := summary_of w (generateDiff (stored_files (kv st)) files) in
  checkTask w st
  = (Returned tt,
     match notifier_reply w lastBuildId buildId summary with
     | Replied _ _ =>
         {| kv := persisted (kv st) buildId files;
            trace := trace st ++ attempt w st html lastBuildId buildId
                     ++ [KvPut "LAST_BUILD_ID" buildId;
                         KvPut "LAST_JS_FILES" (JSON_stringify files)] |}
     | Rejected =>
         {| kv := kv st;
            trace := trace st ++ attempt w st html lastBuildId buildId
                     ++ [Log LogRunError] |}
     end).
Proof. exact (run_changed w st status html buildId lastBuildId). Qed.

Lemma checkTask_changed_witness :
  let w := sample_world sample_page (Replied 429 None) in
  kv (snd (checkTask (json := sample_codec) w (state_of sample_store)))
  = persisted (json := sample_codec) sample_store (lit "build-2")
      (downloaded w (match_scripts sample_page)).
Proof.
  intros w.
  rewrite (checkTask_changed (json := sample_codec) w (state_of sample_store)
             200%N sample_page (lit "build-2") (lit "build-1")).
  - reflexivity.
  - reflexivity.
  - reflexivity.
  - vm_compute. reflexivity.
  - vm_compute. reflexivity.
  - discriminate.
  - vm_compute. discriminate.
  - vm_compute. discriminate.
Defined.

(** In the changed path nothing is written and the notifier is not called
    before the one attempt that closes [attempt]. *)
Lemma attempt_notifies_once {json : JSON} (w : World) st html lastBuildId buildId :
  exists before,
    attempt w st html lastBuildId buildId
    = before ++ [PostNotifier lastBuildId buildId
                   (summary_of w (generateDiff (stored_files (kv st))
                                    (downloaded w (match_scripts html))))]
    /\ forallb (fun e => match e with
                         | PostNotifier _ _ _ | KvPut _ _ => false
                         | _ => true
                         end) before = true.
Proof.
  unfold attempt.
  set (diffText := generateDiff (stored_files (kv st))
                     (downloaded w (match_scripts html))).
  exists (reads w html
          ++ [Log (LogChanged lastBuildId buildId); Log (LogDiff diffText);
              Log LogCallingAI]
          ++ summary_trace w diffText).
  split; [now rewrite <- !app_assoc|].
  rewrite forallb_app. apply andb_true_intro. split.
  - pose proof (reads_quiet w html) as Hq. rewrite forallb_forall in Hq.
    apply forallb_forall. intros e He. specialize (Hq e He).
    destruct e; try reflexivity; discriminate.
  - rewrite forallb_app. apply andb_true_intro. split; [reflexivity|].
    destruct (summary_trace_shape w diffText) as [Hs|[Hs|Hs]];
      rewrite Hs; reflexivity.
Qed.

(** ** Concurrent script download *)

Lemma files_get_set files key value key' :
  files_get (files_set files key value) key'
  = if jsstring_eqb key key' then Some value else files_get files key'.
Proof.
  induction files as [|[k v] rest IH]; cbn [files_set files_get].
  - reflexivity.
  - destruct (jsstring_eqb k key) eqn:Ek; cbn [files_get].
    + apply jsstring_eqb_true in Ek. subst k.
      now destruct (jsstring_eqb key key').
    + rewrite IH. destruct (jsstring_eqb k key') eqn:Ek'; [|reflexivity].
      apply jsstring_eqb_true in Ek'. subst k.
      destruct (jsstring_eqb key key') eqn:E; [|reflexivity].
      apply jsstring_eqb_true in E. subst key.
      rewrite jsstring_eqb_refl in Ek. discriminate.
Qed.

Section Downloads.

Variable w : World.
Variable scriptPaths : list jsstring.

Lemma assigned_resolves files j name content :
  resolves w scriptPaths j name content ->
  files_get (assigned w scriptPaths files j) name = Some content.
Proof.
  intros (path & status & Hj & Hreply & <-). unfold assigned.
  rewrite Hj, Hreply, files_get_set. now rewrite jsstring_eqb_refl.
Qed.

Lemma assigned_other files j name :
  (forall content, ~ resolves w scriptPaths j name content) ->
  files_get (assigned w scriptPaths files j) name = files_get files name.
Proof.
  intros Hno. unfold assigned.
  destruct (scriptPaths !! j) as [path|] eqn:Hj; [|reflexivity].
  destruct (script_reply w j path) as [|status [content|]] eqn:Hreply;
    try reflexivity.
  rewrite files_get_set.
  destruct (jsstring_eqb (strip_hash path) name) eqn:E; [|reflexivity].
  apply jsstring_eqb_true in E. exfalso. apply (Hno content).
  now exists path, status.
Qed.

Lemma assigned_keeps files j name :
  is_Some (files_get files name) ->
  is_Some (files_get (assigned w scriptPaths files j) name).
Proof.
  intros Hsome. unfold assigned.
  destruct (scriptPaths !! j) as [path|]; [|assumption].
  destruct (script_reply w j path) as [|status [content|]]; try assumption.
  rewrite files_get_set. destruct (jsstring_eqb _ _); eauto.
Qed.

Lemma fold_assigned_other order files name :
  (forall j content, In j order -> ~ resolves w scriptPaths j name content) ->
  files_get (fold_left (assigned w scriptPaths) order files) name
  = files_get files name.
Proof.
  revert files. induction order as [|j order IH]; intros files Hno;
    cbn [fold_left]; [reflexivity|].
  rewrite IH by (intros j' c Hin; apply Hno; now right).
  apply assigned_other. intros c. apply Hno. now left.
Qed.

Lemma fold_assigned_keeps order files name :
  is_Some (files_get files name) ->
  is_Some (files_get (fold_left (assigned w scriptPaths) order files) name).
Proof.
  revert files. induction order as [|j order IH]; intros files Hsome;
    cbn [fold_left]; [assumption|].
  apply IH. now apply assigned_keeps.
Qed.

(** Last write wins: the entry of a canonical name holds the body of the
    last download to finish among those that resolve to that name. *)
Lemma downloaded_last_write before i after name content :
  completion_order w = before ++ i :: after ->
  resolves w scriptPaths i name content ->
  (forall j c, In j after -> ~ resolves w scriptPaths j name c) ->
  files_get (downloaded w scriptPaths) name = Some content.
Proof.
  intros Horder Hi Hafter. rewrite downloaded_steps, Horder.
  rewrite fold_left_app. cbn [fold_left].
  rewrite fold_assigned_other by assumption.
  now apply assigned_resolves.
Qed.

Lemma downloaded_present i name content :
  In i (completion_order w) ->
  resolves w scriptPaths i name content ->
  is_Some (files_get (downloaded w scriptPaths) name).
Proof.
  intros Hin Hi. apply in_split in Hin. destruct Hin as (before & after & Horder).
  rewrite downloaded_steps, Horder, fold_left_app. cbn [fold_left].
  apply fold_assigned_keeps. rewrite (assigned_resolves _ _ _ _ Hi). eauto.
Qed.

(** A name is in the result only if some download resolved to it. *)
Lemma downloaded_only_resolved name :
  is_Some (files_get (downloaded w scriptPaths) name) ->
  exists j content, In j (completion_order w)
                    /\ resolves w scriptPaths j name content.
Proof.
  rewrite downloaded_steps.
  assert (H : forall order files,
             is_Some (files_get (fold_left (assigned w scriptPaths) order files) name) ->
             is_Some (files_get files name)
             \/ exists j content, In j order /\ resolves w scriptPaths j name content).
  { induction order as [|j order IH]; intros files; cbn [fold_left]; [auto|].
    intros Hsome. destruct (IH _ Hsome) as [Hj | (j' & c & Hin & Hres)].
    - unfold assigned in Hj.
      destruct (scriptPaths !! j) as [path|] eqn:Hp; [|auto].
      destruct (script_reply w j path) as [|status [content|]] eqn:Hr; auto.
      rewrite files_get_set in Hj.
      destruct (jsstring_eqb (strip_hash path) name) eqn:E; [|auto].
      apply jsstring_eqb_true in E. right. exists j, content.
      split; [now left | now exists path, status].
    - right. exists j', c. split; [now right | assumption]. }
  intros Hsome. destruct (H _ _ Hsome) as [[? Hnil] | Hres]; [discriminate | exact Hres].
Qed.

End Downloads.

(** C10 (as stated, it fails when two paths share a canonical name): both
    downloads resolve, the first with the body [first body], yet the entry
    of its canonical name holds the body of the download that finished
    after it. *)
Lemma fetchJsContents_collision :
  let path := lit "/_next/static/chunks/a-0123456789abcdef.js" in
  Permutation (completion_order colliding_world)
              (seq 0 (length colliding_paths))
  /\ colliding_paths !! 0%nat = Some path
  /\ script_reply colliding_world 0 path = Replied 200 (Some (lit "first body"))
  /\ fst (fetchJsContents colliding_world colliding_paths initial)
     = Returned [(lit "/_next/static/chunks/a.js", lit "second body")]
  /\ files_get (downloaded colliding_world colliding_paths) (strip_hash path)
     <> Some (lit "first body").
Proof.
  cbn zeta. split; [reflexivity|]. split; [reflexivity|]. split; [reflexivity|].
  split; [vm_compute; reflexivity | vm_compute; discriminate].
Qed.

(** C10 (amended): the downloads never make [fetchJsContents] throw, and for
    every requested path whose request and body read resolve, whatever the
    status of the response, the canonical name of the path is a key of the
    result.  Its content is the body of the last download to finish among
    those that resolve to that canonical name: it is the body of this path
    unless a path with the same canonical name resolves later. *)
Theorem fetchJsContents_resolved (w : World) scriptPaths st i path status content :
  Permutation (completion_order w) (seq 0 (length scriptPaths)) ->
  scriptPaths !! i = Some path ->
  script_reply w i path = Replied status (Some content) ->
  exists files events,
    fetchJsContents w scriptPaths st = (Returned files, add_trace st events)
    /\ is_Some (files_get files (strip_hash path))
    /\ forall before after,
        completion_order w = before ++ i :: after ->
        (forall j c, In j after ->
                     ~ resolves w scriptPaths j (strip_hash path) c) ->
        files_get files (strip_hash path) = Some content.
Proof.
  intros Hperm Hi Hreply.
  assert (Hres : resolves w scriptPaths i (strip_hash path) content)
    by now exists path, status.
  exists (downloaded w scriptPaths), (download_trace w scriptPaths).
  split; [apply fetchJsContents_run|]. split.
  - apply (downloaded_present w scriptPaths i _ content); [|assumption].
    apply (Permutation_in i (Permutation_sym Hperm)).
    apply in_seq. apply lookup_lt_Some in Hi. lia.
  - intros before after Horder Hafter.
    now apply (downloaded_last_write w scriptPaths before i after).
Qed.

Lemma fetchJsContents_resolved_witness :
  let w := sample_world sample_page Rejected in
  let paths := match_scripts sample_page in
  files_get (downloaded w paths) (lit "/_next/static/chunks/main.js")
  = Some (lit "init(region, euCountry)").
Proof.
  intros w paths.
  destruct (fetchJsContents_resolved w paths initial 0
              (lit "/_next/static/chunks/main-0123456789abcdef.js") 200%N
              (lit "init(region, euCountry)"))
    as (files & events & Hrun & _ & Hlast).
  - apply perm_swap.
  - vm_compute. reflexivity.
  - reflexivity.
  - rewrite fetchJsContents_run in Hrun. injection Hrun as -> _.
    apply (Hlast [1%nat] []); [reflexivity | intros j c []].
Defined.

(** A response with an error status still fills its entry, and a download
    that rejects leaves none: two entries for three requests. *)
Example fetchJsContents_partial :
  downloaded flaky_world
    [lit "/_next/static/chunks/a.js"; lit "/_next/static/chunks/b.js";
     lit "/_next/static/chunks/c.js"]
  = [(lit "/_next/static/chunks/a.js", lit "one");
     (lit "/_next/static/chunks/b.js", lit "Not Found")].
Proof. vm_compute. reflexivity. Qed.

(** ** Invariants of a run *)

(** The handler of [checkTask] swallows every error: a run always returns. *)
Lemma checkTask_returns {json : JSON} (w : World) st :
  fst (checkTask w st) = Returned tt.
Proof.
  unfold checkTask, try_catch.
  match goal with |- context [bind ?c ?k st] => destruct (bind c k st) as [[[]|] st'] end;
    reflexivity.
Qed.

(** With a codec whose output can be read back, every run leaves a script
    blob that parses: the hypothesis the orchestrator theorems make on the
    stored blob holds in every store the pipeline itself has written,
    starting from the empty one. *)
Lemma checkTask_keeps_blob {json : JSON} (w : World) st :
  (forall files, JSON_parse (JSON_stringify files) <> None) ->
  stored_files_parse (kv st) ->
  stored_files_parse (kv (snd (checkTask w st))).
Proof.
  intros Hlaw Hparse.
  assert (Hnew : forall buildId files,
             stored_files_parse (persisted (kv st) buildId files)).
  { intros buildId files. unfold stored_files_parse, persisted.
    rewrite lookup_insert_eq.
    pose proof (Hlaw files) as Hf.
    destruct (JSON_stringify files); [exact I | exact Hf]. }
  destruct (page_reply w) as [|status [html|]] eqn:Hpage;
    try (rewrite run_page_failure by (intros; congruence); exact Hparse).
  destruct (http_ok status) eqn:Hok;
    [|rewrite run_page_failure by (intros; congruence); exact Hparse].
  destruct (match_buildId html) as [buildId|] eqn:Hbuild;
    [|rewrite (run_without_buildId w st status html Hpage Hok Hbuild); exact Hparse].
  destruct (truthy (kv st !! "LAST_BUILD_ID"%string)) eqn:Hlast.
  - destruct (kv st !! "LAST_BUILD_ID"%string) as [[|l ast]|] eqn:Hl;
      try discriminate.
    destruct (decide (l :: ast = buildId)) as [<-|Hne].
    + destruct (run_same_build w st status html _ Hpage Hok Hbuild Hl)
        as [E | [_ E]]; rewrite E; exact Hparse.
    + rewrite (run_changed w st status html buildId (l :: ast)
                 Hpage Hok Hbuild Hl) by (assumption || discriminate).
      destruct (notifier_reply w _ _ _); [exact Hparse | apply Hnew].
  - destruct (run_first_start w st status html buildId Hpage Hok Hbuild Hlast)
      as [E | [_ E]]; rewrite E; [apply Hnew | exact Hparse].
Qed.

Lemma initial_blob {json : JSON} : stored_files_parse (kv initial).
Proof. exact I. Qed.

(** * Further properties *)

(** ** The build marker *)

Lemma marker_at_buildId_at s token : marker_at s token <-> buildId_at s = Some token.
Proof. unfold marker_at. symmetry. apply buildId_at_spec. Qed.

Lemma match_buildId_cons c html :
  match_buildId (c :: html)
  = match buildId_at (c :: html) with
    | Some token => Some token
    | None => match_buildId html
    end.
Proof. reflexivity. Qed.

Lemma buildId_at_nil : buildId_at [] = None.
Proof. reflexivity. Qed.

(** X1: [fetchPageData] takes the build identifier from the leftmost build
    marker of the markup: the result is [token] exactly when the markup
    holds a marker carrying [token] (a non-empty token without quotes,
    between the opening literal and a closing quote) and no marker starts
    further left. *)
Theorem match_buildId_leftmost html token :
  match_buildId html = Some token <->
  exists before s,
    html = before ++ s /\ marker_at s token
    /\ forall before' s' token',
        html = before' ++ s' -> marker_at s' token' ->
        (length before <= length before')%nat.
Proof.
  revert token. induction html as [|c html IH]; intros token.
  - cbn [match_buildId]. rewrite buildId_at_nil. split; [discriminate|].
    intros (before & s & E & Hm & _).
    symmetry in E. apply app_eq_nil in E. destruct E as [_ ->].
    apply marker_at_buildId_at in Hm. discriminate.
  - rewrite match_buildId_cons. destruct (buildId_at (c :: html)) as [t|] eqn:E.
    + split.
      * intros [= ->]. exists [], (c :: html). split; [reflexivity|].
        split; [now apply marker_at_buildId_at|]. intros; cbn; lia.
      * intros (before & s & Eh & Hm & Hleft).
        specialize (Hleft [] (c :: html) t eq_refl
                      (proj2 (marker_at_buildId_at _ _) E)).
        destruct before; [|cbn in Hleft; lia].
        cbn in Eh. subst s. apply marker_at_buildId_at in Hm. congruence.
    + rewrite IH. split.
      * intros (before & s & -> & Hm & Hleft).
        exists (c :: before), s. split; [reflexivity|]. split; [assumption|].
        intros before' s' token' Eh Hm'. destruct before' as [|c' before'].
        -- cbn in Eh. subst s'. apply marker_at_buildId_at in Hm'. congruence.
        -- injection Eh as _ Eh. cbn [length].
           specialize (Hleft before' s' token' Eh Hm'). lia.
      * intros (before & s & Eh & Hm & Hleft). destruct before as [|c' before].
        -- cbn in Eh. subst s. apply marker_at_buildId_at in Hm. congruence.
        -- injection Eh as _ Eh. exists before, s.
           split; [assumption|]. split; [assumption|].
           intros before' s' token' Eh' Hm'.
           specialize (Hleft (c :: before') s' token').
           cbn [length app] in Hleft. rewrite Eh' in Hleft.
           specialize (Hleft eq_refl Hm'). lia.
Qed.

Lemma match_buildId_leftmost_witness :
  exists before s,
    sample_html "first" [] ++ sample_html "second" [] = before ++ s
    /\ marker_at s (lit "first").
Proof.
  destruct (proj1 (match_buildId_leftmost
                     (sample_html "first" [] ++ sample_html "second" [])
                     (lit "first")))
    as (before & s & E & Hm & _).
  - vm_compute. reflexivity.
  - exists before, s. split; assumption.
Defined.

(** ** The script references *)

Lemma ends_with_js_spec run :
  (3 < length run)%nat ->
  ends_with_js run = true <-> exists stem, run = stem ++ DOT_JS /\ stem <> [].
Proof.
  intros Hlen. unfold ends_with_js. rewrite jsstring_eqb_true. split.
  - intros E. exists (take (length run - 3) run). split.
    + rewrite <- E. now rewrite take_drop.
    + intros Hnil. apply (f_equal length) in Hnil.
      rewrite length_take in Hnil. cbn in Hnil. lia.
  - intros (stem & -> & _). rewrite length_app.
    change (length DOT_JS) with 3%nat.
    replace (length stem + 3 - 3)%nat with (length stem) by lia.
    apply drop_app_length.
Qed.

Lemma not_in_app {A} (x : A) l1 l2 : ~ In x (l1 ++ l2) <-> ~ In x l1 /\ ~ In x l2.
Proof. rewrite in_app_iff. tauto. Qed.

Lemma script_at_spec s path len :
  script_at s = Some (path, len) <->
  script_ref_at s path
  /\ len = (length SCRIPT_OPEN + length path + 1)%nat.
Proof.
  unfold script_at, script_ref_at. split.
  - destruct (starts_with (SCRIPT_OPEN ++ CHUNK_DIR) s) eqn:E; [|discriminate].
    apply starts_with_spec in E. destruct E as [t ->].
    rewrite drop_app_length.
    destruct (until_quote t) as [[run rest]|] eqn:Et; [|discriminate].
    apply until_quote_spec in Et. destruct Et as [-> Hno].
    destruct (3 <? length run)%nat eqn:Hlen; [|discriminate].
    apply Nat.ltb_lt in Hlen.
    destruct (ends_with_js run) eqn:Ejs; [|discriminate].
    apply (ends_with_js_spec run Hlen) in Ejs. destruct Ejs as (stem & -> & Hstem).
    cbn [andb]. intros H.
    assert (Hp : path = CHUNK_DIR ++ stem ++ DOT_JS) by congruence.
    assert (Hl : len = (length (SCRIPT_OPEN ++ CHUNK_DIR)
                        + length (stem ++ DOT_JS) + 1)%nat) by congruence.
    clear H. subst path len. split.
    + exists stem, rest. rewrite <- !app_assoc. repeat split; try assumption.
      apply not_in_app in Hno. tauto.
    + rewrite !length_app. lia.
  - intros [(stem & rest & -> & Hstem & Hno & ->) ->].
    replace (SCRIPT_OPEN ++ CHUNK_DIR ++ stem ++ DOT_JS ++ QUOTE :: rest)
      with ((SCRIPT_OPEN ++ CHUNK_DIR) ++ (stem ++ DOT_JS) ++ QUOTE :: rest)
      by (now rewrite <- !app_assoc).
    replace (starts_with (SCRIPT_OPEN ++ CHUNK_DIR) _) with true
      by (symmetry; apply starts_with_spec; eauto).
    rewrite drop_app_length.
    replace (until_quote ((stem ++ DOT_JS) ++ QUOTE :: rest))
      with (Some (stem ++ DOT_JS, rest)).
    2:{ symmetry. apply until_quote_spec. split; [reflexivity|].
        apply not_in_app. split; [assumption|]. vm_compute. intuition discriminate. }
    assert (Hlen : (3 < length (stem ++ DOT_JS))%nat).
    { rewrite length_app. change (length DOT_JS) with 3%nat.
      destruct stem; [contradiction | cbn; lia]. }
    replace (3 <? length (stem ++ DOT_JS))%nat with true
      by (symmetry; now apply Nat.ltb_lt).
    replace (ends_with_js (stem ++ DOT_JS)) with true
      by (symmetry; apply (ends_with_js_spec _ Hlen); eauto).
    cbn [andb]. apply f_equal. apply f_equal2; [reflexivity|].
    rewrite !length_app. lia.
Qed.

Lemma script_ref_at_head s path i :
  script_ref_at s path -> (i < 5)%nat -> s !! i = SCRIPT_OPEN !! i.
Proof.
  intros (stem & rest & -> & _) Hi.
  now rewrite lookup_app_l by (change (length SCRIPT_OPEN) with 5%nat; lia).
Qed.

Lemma script_ref_at_path s path :
  script_ref_at s path ->
  exists rest, s = SCRIPT_OPEN ++ path ++ QUOTE :: rest
               /\ ~ In QUOTE path
               /\ path !! (length path - 1)%nat = Some 115%N
               /\ (0 < length path)%nat.
Proof.
  intros (stem & rest & -> & Hstem & Hno & ->). exists rest.
  split; [now rewrite <- !app_assoc|]. split; [|split].
  - rewrite !not_in_app. repeat split; try assumption;
      vm_compute; intuition discriminate.
  - rewrite !app_assoc, lookup_app_r
      by (rewrite !length_app; change (length DOT_JS) with 3%nat; lia).
    rewrite !length_app. change (length DOT_JS) with 3%nat.
    replace (length CHUNK_DIR + length stem + 3 - 1
             - (length CHUNK_DIR + length stem))%nat with 2%nat by lia.
    reflexivity.
  - rewrite !length_app. change (length DOT_JS) with 3%nat. lia.
Qed.

(** No script reference starts inside another one: inside a reference the
    only quotes are the two that delimit the path, and the path ends in
    [.js], not in [src=]. *)
Lemma script_at_no_overlap s path len k :
  script_at s = Some (path, len) -> (0 < k < len)%nat ->
  script_at (drop k s) = None.
Proof.
  intros Hs Hk. apply script_at_spec in Hs. destruct Hs as [Href ->].
  destruct (script_at (drop k s)) as [[path' len']|] eqn:E; [exfalso|reflexivity].
  apply script_at_spec in E. destruct E as [Href' _].
  assert (Hhead : forall i, (i < 5)%nat -> s !! (k + i)%nat = SCRIPT_OPEN !! i).
  { intros i Hi. rewrite <- lookup_drop. now apply (script_ref_at_head _ path'). }
  destruct (script_ref_at_path s path Href) as (rest & -> & Hno & Hlast & Hpos).
  change (length SCRIPT_OPEN) with 5%nat in Hk.
  assert (Hq : (SCRIPT_OPEN ++ path ++ QUOTE :: rest) !! (5 + length path)%nat
               = Some QUOTE).
  { rewrite lookup_app_r by (change (length SCRIPT_OPEN) with 5%nat; lia).
    change (length SCRIPT_OPEN) with 5%nat.
    replace (5 + length path - 5)%nat with (length path) by lia.
    now apply list_lookup_middle. }
  assert (Hin : forall j, (5 <= j < 5 + length path)%nat ->
                (SCRIPT_OPEN ++ path ++ QUOTE :: rest) !! j = path !! (j - 5)%nat).
  { intros j Hj.
    rewrite lookup_app_r by (change (length SCRIPT_OPEN) with 5%nat; lia).
    change (length SCRIPT_OPEN) with 5%nat.
    now rewrite lookup_app_l by lia. }
  destruct (Nat.lt_trichotomy (k + 4) (5 + length path)) as [Hlt|[Heq|Hgt]].
  - pose proof (Hhead 4%nat ltac:(lia)) as H4. rewrite Hin in H4 by lia.
    apply list_elem_of_lookup_2, list_elem_of_In in H4. contradiction.
  - pose proof (Hhead 3%nat ltac:(lia)) as H3. rewrite Hin in H3 by lia.
    replace (k + 3 - 5)%nat with (length path - 1)%nat in H3 by lia.
    rewrite Hlast in H3. discriminate.
  - assert (Hi : (5 + length path - k < 4)%nat) by lia.
    pose proof (Hhead (5 + length path - k)%nat ltac:(lia)) as H.
    replace (k + (5 + length path - k))%nat with (5 + length path)%nat in H by lia.
    rewrite Hq in H.
    destruct (5 + length path - k)%nat as [|[|[|[|n]]]]; try discriminate; lia.
Qed.

Lemma scan_scripts_all skip html :
  (forall k, (k < skip)%nat -> script_at (drop k html) = None) ->
  scan_scripts skip html = all_scripts html.
Proof.
  revert skip. induction html as [|c rest IH]; intros skip Hskip;
    cbn [scan_scripts all_scripts]; [reflexivity|].
  destruct skip as [|skip].
  - destruct (script_at (c :: rest)) as [[path len]|] eqn:E.
    + f_equal. apply IH. intros k Hk.
      apply (script_at_no_overlap (c :: rest) path len (S k) E). lia.
    + apply IH. intros k Hk. lia.
  - pose proof (Hskip 0%nat ltac:(lia)) as H0. cbn [drop] in H0. rewrite H0.
    apply IH. intros k Hk.
    apply (Hskip (S k)). lia.
Qed.

Lemma all_scripts_spec html path :
  In path (all_scripts html) <->
  exists before s, html = before ++ s /\ script_ref_at s path.
Proof.
  induction html as [|c rest IH]; cbn [all_scripts].
  - split; [intros []|]. intros (before & s & E & Href).
    symmetry in E. apply app_eq_nil in E. destruct E as [_ ->].
    destruct Href as (stem & r & E & _). discriminate.
  - assert (Hhere : forall len,
               script_at (c :: rest) = Some (path, len) ->
               exists before s, c :: rest = before ++ s /\ script_ref_at s path).
    { intros len E. apply script_at_spec in E. exists [], (c :: rest). tauto. }
    assert (Hlater : (exists before s, rest = before ++ s /\ script_ref_at s path) ->
               exists before s, c :: rest = before ++ s /\ script_ref_at s path).
    { intros (before & s & -> & Href). exists (c :: before), s. auto. }
    assert (Hsplit : (exists before s, c :: rest = before ++ s /\ script_ref_at s path) ->
               script_ref_at (c :: rest) path
               \/ exists before s, rest = before ++ s /\ script_ref_at s path).
    { intros (before & s & E & Href). destruct before as [|c' before].
      - cbn in E. subst s. now left.
      - injection E as _ ->. right. eauto. }
    destruct (script_at (c :: rest)) as [[p len]|] eqn:E; cbn [In]; rewrite IH.
    + split.
      * intros [<-|H]; [now apply (Hhere len) | now apply Hlater].
      * intros H. destruct (Hsplit H) as [Href|H']; [left | now right].
        assert (E' : script_at (c :: rest)
                     = Some (path, (length SCRIPT_OPEN + length path + 1)%nat))
          by (apply script_at_spec; tauto).
        congruence.
    + split; [exact Hlater|].
      intros H. destruct (Hsplit H) as [Href|H']; [|assumption].
      assert (E' : script_at (c :: rest)
                   = Some (path, (length SCRIPT_OPEN + length path + 1)%nat))
        by (apply script_at_spec; tauto).
      congruence.
Qed.

Lemma match_scripts_spec html path :
  In path (match_scripts html) <->
  exists before s, html = before ++ s /\ script_ref_at s path.
Proof.
  unfold match_scripts. rewrite scan_scripts_all by (intros k Hk; lia).
  apply all_scripts_spec.
Qed.

(** X2: [fetchPageData] extracts exactly the script references of the
    markup: a path is among [scriptPaths] if and only if the markup holds,
    at some position, the attribute opening [src=] with a quote, the chunk
    directory, a non-empty stem without quotes, [.js] and a closing quote,
    the path being the text between the two quotes. *)
Theorem match_scripts_exact html path :
  In path (match_scripts html) <->
  exists before s, html = before ++ s /\ script_ref_at s path.
Proof. exact (match_scripts_spec html path). Qed.

Lemma match_scripts_exact_witness :
  In (lit "/_next/static/chunks/app/page-f771e2c1298902e1.js")
     (match_scripts
        (lit "<p>" ++ SCRIPT_OPEN ++ CHUNK_DIR ++ lit "app/page-f771e2c1298902e1"
         ++ DOT_JS ++ QUOTE :: lit "></p>")).
Proof.
  apply (proj2 (match_scripts_exact _ _)).
  exists (lit "<p>"), (SCRIPT_OPEN ++ CHUNK_DIR ++ lit "app/page-f771e2c1298902e1"
                       ++ DOT_JS ++ QUOTE :: lit "></p>").
  split; [reflexivity|].
  exists (lit "app/page-f771e2c1298902e1"), (lit "></p>").
  split; [reflexivity|]. split; [discriminate|].
  split; [vm_compute; intuition discriminate | reflexivity].
Defined.

(** ** The paths of a run *)

Lemma run_blob_error {json : JSON} (w : World) st status html buildId :
  page_reply w = Replied status (Some html) -> http_ok status = true ->
  match_buildId html = Some buildId ->
  ~ stored_files_parse (kv st) ->
  checkTask w st = (Returned tt, add_trace st (reads w html ++ [Log LogRunError])).
Proof.
  intros Hpage Hok Hbuild Hbad.
  destruct (match_buildId_found _ _ Hbuild) as [_ Hb].
  destruct buildId as [|b uild]; [contradiction|].
  unfold checkTask, try_catch.
  rewrite (bind_returned _ _ _ _ _ (fetchPageData_ok w _ _ _ Hpage Hok)).
  cbn [pd_buildId pd_scriptPaths parsePage]. rewrite Hbuild.
  rewrite (bind_returned _ _ _ _ _ (fetchJsContents_run w _ _)).
  rewrite (bind_returned _ _ _ _ _ (kv_get_run _ _)).
  rewrite (bind_returned _ _ _ _ _ (kv_get_run _ _)).
  rewrite !add_trace_app, !kv_add_trace, reads_assoc.
  rewrite (bind_thrown _ _ _ _ (parse_last_fails _ _ Hbad)).
  now rewrite console_run, add_trace_app.
Qed.

(** Every run returns, on one of the seven endings. *)
Lemma checkTask_ending {json : JSON} (w : World) st :
  exists st', checkTask w st = (Returned tt, st') /\ Ending w st st'.
Proof.
  destruct (page_reply w) as [|status [html|]] eqn:Hpage.
  1,3: (eexists; split; [apply run_page_failure | apply EndPageError];
        intros; congruence).
  destruct (http_ok status) eqn:Hok.
  2:{ eexists; split; [apply run_page_failure | apply EndPageError];
      intros; congruence. }
  destruct (match_buildId html) as [buildId|] eqn:Hbuild.
  2:{ eexists. split; [now apply (run_without_buildId w st status html)|].
      now apply (EndAborted w st status html). }
  destruct (stored_files_parse_dec (kv st)) as [Hp|Hp].
  2:{ eexists. split; [now apply (run_blob_error w st status html buildId)|].
      now apply (EndBlobError w st status html buildId). }
  destruct (truthy (kv st !! "LAST_BUILD_ID"%string)) eqn:Hlast.
  - destruct (kv st !! "LAST_BUILD_ID"%string) as [[|l ast]|] eqn:Hl;
      try discriminate.
    destruct (decide (l :: ast = buildId)) as [<-|Hne].
    + destruct (run_same_build w st status html _ Hpage Hok Hbuild Hl)
        as [E | [Hbad _]]; [|contradiction].
      eexists. split; [exact E|].
      now apply (EndNoChange w st status html (l :: ast)).
    + pose proof (run_changed w st status html buildId (l :: ast)
                    Hpage Hok Hbuild Hl ltac:(discriminate) Hne Hp) as E.
      cbn zeta in E.
      destruct (notifier_reply w (l :: ast) buildId _) as [|status' text'] eqn:Hn.
      * eexists. split; [exact E|].
        now apply (EndNotifyError w st status html buildId (l :: ast)).
      * eexists. split; [exact E|].
        now apply (EndChanged w st status html buildId (l :: ast) status' text').
  - destruct (run_first_start w st status html buildId Hpage Hok Hbuild Hlast)
      as [E | [Hbad _]]; [|contradiction].
    eexists. split; [exact E|].
    now apply (EndBootstrap w st status html buildId).
Qed.

Lemma quiet_not_notify events :
  forallb quiet events = true -> List.filter is_notify events = [].
Proof.
  induction events as [|e events IH]; [reflexivity|]. cbn [forallb List.filter].
  intros H. apply andb_prop in H. destruct H as [He H]. rewrite (IH H).
  destruct e; try reflexivity; discriminate.
Qed.

Lemma quiet_In events e : forallb quiet events = true -> In e events -> quiet e = true.
Proof. intros H. rewrite forallb_forall in H. apply H. Qed.

Lemma persisted_other {json : JSON} store buildId files key :
  key <> "LAST_BUILD_ID"%string -> key <> "LAST_JS_FILES"%string ->
  persisted store buildId files !! key = store !! key.
Proof.
  intros H1 H2. unfold persisted.
  rewrite lookup_insert_ne by congruence. now rewrite lookup_insert_ne by congruence.
Qed.

Lemma persisted_buildId {json : JSON} store buildId files :
  persisted store buildId files !! "LAST_BUILD_ID"%string = Some buildId.
Proof.
  unfold persisted. rewrite lookup_insert_ne by discriminate.
  apply lookup_insert_eq.
Qed.

(** X3: a page request that rejects, answers with a status outside
    200..299 (whatever its body says) or has an unreadable body ends the
    run at once: the error is logged, no script is requested, the store is
    neither read nor written, nobody is called, and [checkTask] returns. *)
Theorem checkTask_fetch_error {json : JSON} (w : World) st :
  (forall status html, page_reply w = Replied status (Some html) ->
                       http_ok status = false) ->
  checkTask w st = (Returned tt, add_trace st [FetchPage; Log LogRunError]).
Proof. apply run_page_failure. Qed.

Lemma checkTask_fetch_error_witness :
  match_buildId sample_page = Some (lit "build-2")
  /\ checkTask (json := sample_codec) unavailable_world (state_of sample_store)
     = (Returned tt,
        add_trace (state_of sample_store) [FetchPage; Log LogRunError]).
Proof.
  split; [vm_compute; reflexivity|].
  apply checkTask_fetch_error. intros status html [= <- _]. reflexivity.
Defined.

Lemma run_store_cases {json : JSON} (w : World) st :
  fst (checkTask w st) = Returned tt
  /\ (kv (snd (checkTask w st)) = kv st
      \/ exists status html buildId,
          page_reply w = Replied status (Some html) /\ http_ok status = true
          /\ match_buildId html = Some buildId /\ buildId <> []
          /\ kv (snd (checkTask w st))
             = persisted (kv st) buildId (downloaded w (match_scripts html)))
  /\ forall key, key <> "LAST_BUILD_ID"%string -> key <> "LAST_JS_FILES"%string ->
                 kv (snd (checkTask w st)) !! key = kv st !! key.
Proof.
  destruct (checkTask_ending w st) as (st' & -> & Hend). cbn [fst snd].
  split; [reflexivity|].
  destruct Hend; cbn [kv add_trace]; (split; [|intros key Hkey1 Hkey2]);
    try (left; reflexivity); try reflexivity;
    try (now apply persisted_other);
    right; exists status, html, buildId; repeat split; try assumption;
    eapply match_buildId_found; eassumption.
Qed.


(** X5: a run calls the notifier at most once, and only for a transition:
    the old identifier of the call is the stored, non-empty [LAST_BUILD_ID],
    the new one is the build identifier of the page, and the two differ.
    A first run and a run that finds the stored identifier never notify. *)
Theorem checkTask_notifies_transitions {json : JSON} (w : World) st :
  exists events,
    trace (snd (checkTask w st)) = trace st ++ events
    /\ (length (List.filter is_notify events) <= 1)%nat
    /\ forall oldId newId summary,
        In (PostNotifier oldId newId summary) events ->
        kv st !! "LAST_BUILD_ID"%string = Some oldId
        /\ oldId <> [] /\ oldId <> newId
        /\ exists status html,
            page_reply w = Replied status (Some html) /\ http_ok status = true
            /\ match_buildId html = Some newId.
Proof.
  destruct (checkTask_ending w st) as (st' & -> & Hend). cbn [snd].
  assert (Hquiet : forall events,
             forallb quiet events = true ->
             (length (List.filter is_notify events) <= 1)%nat
             /\ forall oldId newId summary,
                 In (PostNotifier oldId newId summary) events ->
                 kv st !! "LAST_BUILD_ID"%string = Some oldId
                 /\ oldId <> [] /\ oldId <> newId
                 /\ exists status html,
                     page_reply w = Replied status (Some html)
                     /\ http_ok status = true
                     /\ match_buildId html = Some newId).
  { intros events Hq. rewrite (quiet_not_notify _ Hq). split; [cbn; lia|].
    intros a b c Hin. apply (quiet_In _ _ Hq) in Hin. discriminate. }
  assert (Hattempt : forall status html buildId lastBuildId tail,
             page_reply w = Replied status (Some html) -> http_ok status = true ->
             match_buildId html = Some buildId ->
             kv st !! "LAST_BUILD_ID"%string = Some lastBuildId ->
             lastBuildId <> [] -> lastBuildId <> buildId ->
             forallb quiet tail = true \/ forallb is_put tail = true ->
             (length (List.filter is_notify
                        (attempt w st html lastBuildId buildId ++ tail)) <= 1)%nat
             /\ forall oldId newId summary,
                 In (PostNotifier oldId newId summary)
                    (attempt w st html lastBuildId buildId ++ tail) ->
                 kv st !! "LAST_BUILD_ID"%string = Some oldId
                 /\ oldId <> [] /\ oldId <> newId
                 /\ exists status html,
                     page_reply w = Replied status (Some html)
                     /\ http_ok status = true
                     /\ match_buildId html = Some newId).
  { intros status html buildId lastBuildId tail Hpage Hok Hbuild Hlast Hne Hdiff Htail.
    destruct (attempt_notifies_once w st html lastBuildId buildId)
      as (before & -> & Hbefore).
    assert (Hb : List.filter is_notify before = []).
    { clear -Hbefore. induction before as [|e before IH]; [reflexivity|].
      cbn [forallb List.filter] in *. apply andb_prop in Hbefore.
      destruct Hbefore as [He H]. rewrite (IH H).
      destruct e; try reflexivity; discriminate. }
    assert (Ht : List.filter is_notify tail = []).
    { clear -Htail. induction tail as [|e tail IH]; [reflexivity|].
      cbn [forallb List.filter] in *.
      destruct Htail as [H|H]; apply andb_prop in H; destruct H as [He H];
        rewrite IH by auto; destruct e; try reflexivity; discriminate. }
    split.
    - rewrite !List.filter_app, Hb, Ht. cbn. lia.
    - intros a b c Hin.
      assert (Hin' : In (PostNotifier a b c) (List.filter is_notify
                 ((before ++ [PostNotifier lastBuildId buildId
                                (summary_of w (generateDiff (stored_files (kv st))
                                   (downloaded w (match_scripts html))))]) ++ tail)))
        by (apply filter_In; split; [assumption | reflexivity]).
      rewrite !List.filter_app, Hb, Ht in Hin'. cbn in Hin'.
      destruct Hin' as [[= <- <- <-]|[]]. eauto 10. }
  destruct Hend.
  - eexists. split; [reflexivity|]. now apply Hquiet.
  - eexists. split; [reflexivity|]. now apply Hquiet.
  - eexists. split; [reflexivity|]. apply Hquiet.
    now rewrite forallb_app, reads_quiet.
  - eexists. split; [reflexivity|]. cbn [trace].
    split.
    + rewrite List.filter_app, (quiet_not_notify _ (reads_quiet w html)). cbn. lia.
    + intros a b c Hin. apply in_app_or in Hin. destruct Hin as [Hin|Hin].
      * apply (quiet_In _ _ (reads_quiet w html)) in Hin. discriminate.
      * cbn in Hin. intuition discriminate.
  - eexists. split; [reflexivity|]. apply Hquiet.
    now rewrite forallb_app, reads_quiet.
  - eexists. split; [reflexivity|].
    apply (Hattempt status html buildId lastBuildId); auto.
  - eexists. split; [reflexivity|]. cbn [trace].
    apply (Hattempt status html buildId lastBuildId); auto.
Qed.

Lemma diff_text_bound oldFiles newFiles :
  (length (generateDiff oldFiles newFiles) <= 3000)%nat.
Proof. unfold generateDiff, substring0. rewrite length_take. lia. Qed.

Lemma summary_trace_prompt (w : World) diffText prompt :
  In (PostSummarizer prompt) (summary_trace w diffText) ->
  prompt = PROMPT_HEAD ++ diffText /\ diffText <> [].
Proof.
  intros Hin. split.
  - destruct (summary_trace_shape w diffText) as [Hs|[Hs|Hs]];
      rewrite Hs in Hin; cbn [In] in Hin; intuition congruence.
  - intros ->. unfold summary_trace, effects_of, getAIPatchSummary in Hin.
    cbn in Hin. exact Hin.
Qed.

(** X6: whatever a run sends to the text-generation endpoint is the fixed
    prompt head followed by a non-empty diff text of at most 3000 code
    units, so a prompt is never longer than 3137 code units; and a run
    sends at most one prompt. *)
Theorem checkTask_prompt_bound {json : JSON} (w : World) st :
  exists events,
    trace (snd (checkTask w st)) = trace st ++ events
    /\ (forall prompt, In (PostSummarizer prompt) events ->
          exists diffText,
            prompt = PROMPT_HEAD ++ diffText /\ diffText <> []
            /\ (length diffText <= 3000)%nat /\ (length prompt <= 3137)%nat)
    /\ (length (List.filter
                  (fun e => match e with PostSummarizer _ => true | _ => false end)
                  events) <= 1)%nat.
Proof.
  destruct (checkTask_ending w st) as (st' & -> & Hend). cbn [snd].
  set (is_post := fun e => match e with PostSummarizer _ => true | _ => false end).
  assert (Hcalm : forall events,
             forallb (fun e => negb (is_post e)) events = true ->
             (forall prompt, In (PostSummarizer prompt) events ->
                exists diffText,
                  prompt = PROMPT_HEAD ++ diffText /\ diffText <> []
                  /\ (length diffText <= 3000)%nat /\ (length prompt <= 3137)%nat)
             /\ (length (List.filter is_post events) <= 1)%nat).
  { intros events Hq. split.
    - intros p Hin. rewrite forallb_forall in Hq. apply Hq in Hin. discriminate.
    - replace (List.filter is_post events) with (@nil Event); [cbn; lia|].
      clear -Hq. induction events as [|e events IH]; [reflexivity|].
      cbn [forallb List.filter] in *. apply andb_prop in Hq.
      destruct Hq as [He H]. rewrite <- (IH H).
      destruct (is_post e); [discriminate | reflexivity]. }
  assert (Hquiet : forall events,
             forallb quiet events = true ->
             forallb (fun e => negb (is_post e)) events = true).
  { intros events Hq. apply forallb_forall. intros e He.
    apply (quiet_In _ _ Hq) in He. destruct e; try reflexivity; discriminate. }
  assert (Hattempt : forall html lastBuildId buildId tail,
             forallb quiet tail = true \/ forallb is_put tail = true ->
             (forall prompt,
                 In (PostSummarizer prompt)
                    (attempt w st html lastBuildId buildId ++ tail) ->
                 exists diffText,
                   prompt = PROMPT_HEAD ++ diffText /\ diffText <> []
                   /\ (length diffText <= 3000)%nat /\ (length prompt <= 3137)%nat)
             /\ (length (List.filter is_post
                           (attempt w st html lastBuildId buildId ++ tail)) <= 1)%nat).
  { intros html lastBuildId buildId tail Htail. unfold attempt.
    set (diffText := generateDiff (stored_files (kv st))
                       (downloaded w (match_scripts html))).
    assert (Ht : List.filter is_post tail = [] /\
                 forall p, ~ In (PostSummarizer p) tail).
    { clear -Htail. induction tail as [|e tail IH]; [split; [reflexivity | intros p []]|].
      cbn [forallb List.filter In] in *.
      destruct Htail as [H|H]; apply andb_prop in H; destruct H as [He H];
        (destruct IH as [IH1 IH2]; [auto|]); rewrite IH1;
        (split; [destruct e; try reflexivity; discriminate|]);
        intros p [->|Hin]; try discriminate; now apply (IH2 p). }
    destruct Ht as [Ht1 Ht2].
    assert (Hr : List.filter is_post (reads w html) = []).
    { pose proof (reads_quiet w html) as Hq. clear -Hq.
      induction (reads w html) as [|e events IH]; [reflexivity|].
      cbn [forallb List.filter] in *. apply andb_prop in Hq.
      destruct Hq as [He H]. rewrite (IH H).
      destruct e; try reflexivity; discriminate. }
    split.
    - intros p Hin. rewrite <- !app_assoc in Hin.
      apply in_app_or in Hin. destruct Hin as [Hin|Hin].
      { apply (quiet_In _ _ (reads_quiet w html)) in Hin. discriminate. }
      cbn [app In] in Hin.
      destruct Hin as [Hin|[Hin|[Hin|Hin]]]; try discriminate.
      apply in_app_or in Hin. destruct Hin as [Hin|Hin].
      + apply summary_trace_prompt in Hin. destruct Hin as [-> Hne].
        exists diffText. repeat split; try assumption.
        * apply diff_text_bound.
        * rewrite length_app. change (length PROMPT_HEAD) with 137%nat.
          pose proof (diff_text_bound (stored_files (kv st))
                        (downloaded w (match_scripts html))). fold diffText in H. lia.
      + cbn in Hin. destruct Hin as [Hin|Hin]; [discriminate|].
        now apply Ht2 in Hin.
    - rewrite !List.filter_app, Hr, Ht1. cbn [List.filter is_post app].
      rewrite app_nil_r.
      destruct (summary_trace_shape w diffText) as [Hs|[Hs|Hs]];
        rewrite Hs; cbn; lia. }
  destruct Hend; eexists; (split; [reflexivity|]); cbn [trace];
    try (apply Hattempt; auto);
    apply Hcalm; rewrite ?forallb_app, ?(Hquiet _ (reads_quiet w _)); reflexivity.
Qed.

(** X7: a snapshot that a run has written is stable: if a run changed the
    store, then every later run that finds the same build identifier on
    the page, in whatever world (other scripts, endpoints down), leaves the
    store as it is, reports no diff, writes nothing and calls neither the
    summariser nor the notifier. *)
Theorem checkTask_written_is_stable {json : JSON} (w w' : World) st
    status html status' html' :
  kv (snd (checkTask w st)) <> kv st ->
  page_reply w = Replied status (Some html) ->
  page_reply w' = Replied status' (Some html') -> http_ok status' = true ->
  match_buildId html' = match_buildId html ->
  exists events,
    checkTask w' (snd (checkTask w st))
    = (Returned tt, add_trace (snd (checkTask w st)) events)
    /\ forallb quiet events = true.
Proof.
  intros Hchanged Hpage Hpage' Hok' Hsame.
  destruct (run_store_cases w st) as (_ & [Hkv|Hkv] & _);
    [contradiction|].
  destruct Hkv as (status0 & html0 & buildId & Hpage0 & _ & Hbuild & _ & Hkv).
  rewrite Hpage in Hpage0. injection Hpage0 as _ <-.
  rewrite Hbuild in Hsame.
  assert (Hlast : kv (snd (checkTask w st)) !! "LAST_BUILD_ID"%string = Some buildId)
    by (rewrite Hkv; apply persisted_buildId).
  destruct (run_same_build w' _ status' html' buildId Hpage' Hok' Hsame Hlast)
    as [E | [_ E]]; eexists; (split; [exact E|]);
    now rewrite forallb_app, reads_quiet.
Qed.

Lemma checkTask_written_is_stable_witness :
  let w := sample_world sample_page (Replied 204 None) in
  exists events,
    checkTask (json := sample_codec) (sample_world sample_page Rejected)
      (snd (checkTask (json := sample_codec) w (state_of sample_store)))
    = (Returned tt,
       add_trace (snd (checkTask (json := sample_codec) w (state_of sample_store)))
         events)
    /\ forallb quiet events = true.
Proof.
  intros w.
  apply (checkTask_written_is_stable (json := sample_codec) w
           (sample_world sample_page Rejected) (state_of sample_store)
           200%N sample_page 200%N sample_page).
  - intros E. apply (f_equal (fun m => m !! "LAST_BUILD_ID"%string)) in E.
    vm_compute in E. discriminate.
  - reflexivity.
  - reflexivity.
  - reflexivity.
  - reflexivity.
Defined.

(** X8: a notification that could not be sent is tried again: when the POST
    of the changed path rejects, the run leaves the store as it was, and
    the next run in the same world detects the same transition and makes
    the same attempt, with the same identifiers and the same summary. *)
Theorem checkTask_retries_notification {json : JSON} (w : World) st status html
    buildId lastBuildId :
  page_reply w = Replied status (Some html) -> http_ok status = true ->
  match_buildId html = Some buildId ->
  kv st !! "LAST_BUILD_ID"%string = Some lastBuildId ->
  lastBuildId <> [] -> lastBuildId <> buildId ->
  stored_files_parse (kv st) ->
  notifier_reply w lastBuildId buildId
    (summary_of w (generateDiff (stored_files (kv st))
                     (downloaded w (match_scripts html)))) = Rejected ->
  let st1 := snd (checkTask w st) in
  kv st1 = kv st
  /\ checkTask w st1
     = (Returned tt,
        add_trace st1 (attempt w st html lastBuildId buildId ++ [Log LogRunError])).
Proof.
  intros Hpage Hok Hbuild Hlast Hne Hdiff Hparse Hrej st1.
  pose proof (run_changed w st status html buildId lastBuildId
                Hpage Hok Hbuild Hlast Hne Hdiff Hparse) as E.
  cbn zeta in E. rewrite Hrej in E.
  assert (Hkv : kv st1 = kv st) by (unfold st1; now rewrite E).
  split; [assumption|].
  pose proof (run_changed w st1 status html buildId lastBuildId Hpage Hok Hbuild) as E1.
  rewrite Hkv in E1. specialize (E1 Hlast Hne Hdiff Hparse). cbn zeta in E1.
  rewrite Hrej in E1. rewrite E1. unfold add_trace, attempt.
  now rewrite Hkv.
Qed.

Lemma checkTask_retries_notification_witness :
  let w := sample_world sample_page Rejected in
  let st1 := snd (checkTask (json := sample_codec) w (state_of sample_store)) in
  kv st1 = sample_store
  /\ In (PostNotifier (lit "build-1") (lit "build-2") (lit "adds a country check"))
        (drop (length (trace st1))
              (trace (snd (checkTask (json := sample_codec) w st1)))).
Proof.
  intros w st1.
  destruct (checkTask_retries_notification (json := sample_codec) w
              (state_of sample_store) 200%N sample_page
              (lit "build-2") (lit "build-1")) as [Hkv E].
  - reflexivity.
  - reflexivity.
  - vm_compute. reflexivity.
  - vm_compute. reflexivity.
  - discriminate.
  - vm_compute. discriminate.
  - vm_compute. discriminate.
  - reflexivity.
  - split; [exact Hkv|]. fold st1 in E. rewrite E. cbn [snd add_trace trace].
    rewrite drop_app_length. apply in_or_app. left.
    unfold attempt. rewrite !app_assoc. apply in_or_app. right.
    left. vm_compute. reflexivity.
Defined.

(** X9: a stored script blob that [JSON.parse] rejects blocks the pipeline
    for good: every run, whatever the page and the stored identifier,
    leaves the store untouched, reports no diff and calls neither the
    summariser nor the notifier, so the blob is never replaced. *)
Theorem checkTask_malformed_blob {json : JSON} (w : World) st :
  ~ stored_files_parse (kv st) ->
  exists events,
    checkTask w st = (Returned tt, add_trace st events)
    /\ forallb quiet events = true.
Proof.
  intros Hbad. destruct (checkTask_ending w st) as (st' & -> & Hend).
  destruct Hend; try contradiction; eexists; (split; [reflexivity|]);
    rewrite ?forallb_app, ?reads_quiet; reflexivity.
Qed.

Lemma checkTask_malformed_blob_witness :
  exists events,
    checkTask (json := sample_codec)
      (sample_world sample_page (Replied 204 None)) (state_of broken_store)
    = (Returned tt, add_trace (state_of broken_store) events)
    /\ forallb quiet events = true.
Proof.
  apply checkTask_malformed_blob. vm_compute. intros H. now apply H.
Defined.

(** X10: the stored script blob stays readable: when the blob the run
    finds parses (or there is none) and [JSON.parse] accepts what
    [JSON.stringify] makes of the downloaded script map, the blob the run
    leaves parses too. *)
Theorem checkTask_blob_invariant {json : JSON} (w : World) st :
  stored_files_parse (kv st) ->
  (forall status html,
      page_reply w = Replied status (Some html) ->
      JSON_parse (JSON_stringify (downloaded w (match_scripts html))) <> None) ->
  stored_files_parse (kv (snd (checkTask w st))).
Proof.
  intros Hparse Hlaw.
  destruct (run_store_cases w st) as (_ & [Hkv|Hkv] & _).
  - now rewrite Hkv.
  - destruct Hkv as (status & html & buildId & Hpage & _ & _ & _ & ->).
    unfold stored_files_parse, persisted. rewrite lookup_insert_eq.
    specialize (Hlaw status html Hpage).
    destruct (JSON_stringify _); [exact I | exact Hlaw].
Qed.

Lemma checkTask_blob_invariant_witness :
  stored_files_parse (json := sample_codec)
    (kv (snd (checkTask (json := sample_codec)
                (sample_world sample_page (Replied 204 None))
                (state_of sample_store)))).
Proof.
  apply checkTask_blob_invariant.
  - vm_compute. discriminate.
  - intros status html [= _ <-]. vm_compute. discriminate.
Defined.

(** ** The HTTP entry point *)

Lemma fetch_test_run {json : JSON} (w : World) st :
  Worker.fetch w (Some (lit "true")) st
  = (match notifier_reply w TEST_OLD_ID TEST_NEW_ID TEST_MESSAGE with
     | Rejected => Thrown
     | Replied _ _ => Returned RESPONSE_TEST
     end,
     add_trace st [PostNotifier TEST_OLD_ID TEST_NEW_ID TEST_MESSAGE]).
Proof.
  unfold Worker.fetch. rewrite bool_decide_eq_true_2 by reflexivity.
  pose proof (sendDiscordNotification_run w TEST_OLD_ID TEST_NEW_ID TEST_MESSAGE st) as E.
  destruct (notifier_reply w TEST_OLD_ID TEST_NEW_ID TEST_MESSAGE).
  - now rewrite (bind_thrown _ _ _ _ E).
  - now rewrite (bind_returned _ _ _ _ _ E).
Qed.

Lemma fetch_normal_run {json : JSON} (w : World) test st :
  test <> Some (lit "true") ->
  Worker.fetch w test st = (Returned RESPONSE_DONE, snd (checkTask w st)).
Proof.
  intros Hne. unfold Worker.fetch. rewrite bool_decide_eq_false_2 by assumption.
  destruct (checkTask_ending w st) as (st' & E & _).
  now rewrite (bind_returned _ _ _ _ _ E), E.
Qed.

(** X11: the HTTP entry point throws in one case only: the request asks for
    the test notification ([test] is exactly the string [true]) and the POST
    to the webhook rejects.  A monitoring request is always answered,
    whatever fails during the run. *)
Theorem fetch_throws_iff {json : JSON} (w : World) test st :
  fst (Worker.fetch w test st) = Thrown <->
  test = Some (lit "true")
  /\ notifier_reply w TEST_OLD_ID TEST_NEW_ID TEST_MESSAGE = Rejected.
Proof.
  destruct (decide (test = Some (lit "true"))) as [->|Hne].
  - rewrite fetch_test_run. cbn [fst].
    destruct (notifier_reply w TEST_OLD_ID TEST_NEW_ID TEST_MESSAGE);
      split; try tauto; try discriminate. intros [_ H]. discriminate.
  - rewrite (fetch_normal_run w test st Hne). cbn [fst].
    split; [discriminate | tauto].
Qed.

Lemma fetch_throws_iff_witness :
  fst (Worker.fetch (json := sample_codec) (sample_world sample_page Rejected)
         (Some (lit "true")) initial) = Thrown.
Proof. apply (proj2 (fetch_throws_iff _ _ _)). split; reflexivity. Defined.

(** X12: a test request sends the fixed test notification and does nothing
    else: the target page is not requested and the store is neither read
    nor written.  Any other request, including [test=TRUE], [test=1] and a
    missing parameter, does what a scheduled run does and is answered with
    the fixed completion text. *)
Theorem fetch_effects {json : JSON} (w : World) test st :
  (test = Some (lit "true") ->
   snd (Worker.fetch w test st)
   = add_trace st [PostNotifier TEST_OLD_ID TEST_NEW_ID TEST_MESSAGE])
  /\ (test <> Some (lit "true") ->
      Worker.fetch w test st
      = (Returned RESPONSE_DONE, snd (Worker.scheduled w st))).
Proof.
  split.
  - intros ->. now rewrite fetch_test_run.
  - intros Hne. now apply fetch_normal_run.
Qed.

Lemma fetch_effects_witness :
  Worker.fetch (json := sample_codec) (sample_world sample_page Rejected)
    (Some (lit "TRUE")) (state_of sample_store)
  = (Returned RESPONSE_DONE,
     snd (Worker.scheduled (json := sample_codec)
            (sample_world sample_page Rejected) (state_of sample_store)))
  /\ snd (Worker.fetch (json := sample_codec) (sample_world sample_page Rejected)
            (Some (lit "true")) (state_of sample_store))
     = add_trace (state_of sample_store)
         [PostNotifier TEST_OLD_ID TEST_NEW_ID TEST_MESSAGE].
Proof.
  split.
  - apply (proj2 (fetch_effects _ _ _)). discriminate.
  - apply (proj1 (fetch_effects _ _ _)). reflexivity.
Defined.

(** ** The summariser, continued *)

(** X13: the summariser never throws and never returns the empty string;
    it makes at most one request, with the fixed prompt head followed by
    the diff text, logs an error only after that request, and leaves the
    store alone. *)
Theorem getAIPatchSummary_safe (w : World) diffText st :
  exists summary events,
    getAIPatchSummary w diffText st = (Returned summary, add_trace st events)
    /\ summary <> []
    /\ (events = []
        \/ events = [PostSummarizer (PROMPT_HEAD ++ diffText)]
        \/ events = [PostSummarizer (PROMPT_HEAD ++ diffText); Log LogSummaryError]).
Proof.
  exists (summary_of w diffText), (summary_trace w diffText).
  split; [apply getAIPatchSummary_run|]. split; [|apply summary_trace_shape].
  unfold summary_of, result_of, getAIPatchSummary.
  destruct (negb (truthy (Some (trim diffText)))); [discriminate|].
  unfold try_catch, bind, emit, console, emit, ret, throw.
  destruct (summarizer_reply w (PROMPT_HEAD ++ diffText)) as [|[c|]];
    cbn; try discriminate.
  destruct (trim c); discriminate.
Qed.

(** X14: for a diff text that is not blank the summary is decided by the
    answer of the endpoint: the failure sentence when the exchange throws,
    the could-not-parse sentence when the answer holds no content or only
    white space, and otherwise the content with the white space at both
    ends removed. *)
Theorem getAIPatchSummary_outcome (w : World) diffText :
  forallb is_js_space diffText = false ->
  summary_of w diffText
  = match summarizer_reply w (PROMPT_HEAD ++ diffText) with
    | CompletionFails => FALLBACK_FAILED
    | CompletionContent None => FALLBACK_UNPARSED
    | CompletionContent (Some content) =>
        if forallb is_js_space content then FALLBACK_UNPARSED else trim content
    end.
Proof.
  intros Hblank. unfold summary_of, result_of, getAIPatchSummary.
  destruct (trim diffText) as [|c t] eqn:E.
  { apply trim_blank in E. congruence. }
  cbn [truthy negb]. unfold try_catch, bind, emit, console, emit, ret, throw.
  destruct (summarizer_reply w (PROMPT_HEAD ++ diffText)) as [|[content|]];
    try reflexivity.
  cbn [option_map truthy default].
  destruct (forallb is_js_space content) eqn:Hc.
  - now rewrite (proj2 (trim_blank content) Hc).
  - destruct (trim content) eqn:Et; [|reflexivity].
    apply trim_blank in Et. congruence.
Qed.

Lemma getAIPatchSummary_outcome_witness :
  summary_of (sample_world sample_page Rejected) (lit "changed")
  = lit "adds a country check".
Proof.
  rewrite getAIPatchSummary_outcome by reflexivity. vm_compute. reflexivity.
Defined.

(** ** The script map, continued *)

Lemma files_get_keys files key :
  is_Some (files_get files key) <-> In key (keys files).
Proof.
  rewrite files_get_In. unfold keys. rewrite in_map_iff. split.
  - intros [content Hin]. now exists (key, content).
  - intros ([k v] & <- & Hin). now exists v.
Qed.

Lemma files_set_keys files key value x :
  In x (keys (files_set files key value)) <-> In x (keys files) \/ x = key.
Proof.
  rewrite <- !files_get_keys, files_get_set.
  destruct (jsstring_eqb key x) eqn:E.
  - apply jsstring_eqb_true in E. subst x.
    split; [intros _; now right | intros _; now exists value].
  - split; [auto|]. intros [H| ->]; [assumption|].
    rewrite jsstring_eqb_refl in E. discriminate.
Qed.

Lemma files_set_NoDup files key value :
  List.NoDup (keys files) -> List.NoDup (keys (files_set files key value)).
Proof.
  induction files as [|[k v] rest IH]; cbn [files_set keys map fst].
  - intros _. apply NoDup_cons_iff. split; [intros [] | apply List.NoDup_nil].
  - intros Hnd. apply NoDup_cons_iff in Hnd.
    destruct Hnd as [Hk Hrest]. destruct (jsstring_eqb k key) eqn:E.
    + cbn [map fst]. apply NoDup_cons_iff. auto.
    + cbn [map fst]. apply NoDup_cons_iff. split; [|now apply IH].
      intros Hin. apply (files_set_keys rest key value k) in Hin.
      destruct Hin as [Hin| ->]; [now apply Hk|].
      rewrite jsstring_eqb_refl in E. discriminate.
Qed.

(** The script map a download returns never holds a key twice. *)
Lemma downloaded_keys_NoDup (w : World) scriptPaths :
  List.NoDup (keys (downloaded w scriptPaths)).
Proof.
  rewrite downloaded_steps.
  assert (H : forall order files,
             List.NoDup (keys files) ->
             List.NoDup (keys (fold_left (assigned w scriptPaths) order files))).
  { induction order as [|j order IH]; intros files Hnd; cbn [fold_left];
      [assumption|].
    apply IH. unfold assigned.
    destruct (scriptPaths !! j) as [path|]; [|assumption].
    destruct (script_reply w j path) as [|status [content|]]; try assumption.
    now apply files_set_NoDup. }
  apply H. apply List.NoDup_nil.
Qed.

Lemma resolves_index (w : World) scriptPaths j name content :
  resolves w scriptPaths j name content -> (j < length scriptPaths)%nat.
Proof. intros (path & status & Hj & _). now apply lookup_lt_Some in Hj. Qed.

Lemma permutation_covers (order : list nat) n j :
  Permutation order (seq 0 n) -> (j < n)%nat -> In j order.
Proof.
  intros Hperm Hj. apply (Permutation_in j (Permutation_sym Hperm)).
  apply in_seq. lia.
Qed.

(** X15: partial failure is silent and exact: once every download has
    finished, a canonical name is a key of the result if and only if some
    requested path with that canonical name resolved, body included; the
    paths whose download rejected leave no entry and do not disturb the
    others. *)
Theorem fetchJsContents_keys (w : World) scriptPaths name :
  Permutation (completion_order w) (seq 0 (length scriptPaths)) ->
  In name (keys (downloaded w scriptPaths)) <->
  exists j content, resolves w scriptPaths j name content.
Proof.
  intros Hperm. rewrite <- files_get_keys. split.
  - intros Hsome. apply downloaded_only_resolved in Hsome.
    destruct Hsome as (j & content & _ & Hres). eauto.
  - intros (j & content & Hres).
    apply (downloaded_present w scriptPaths j name content); [|assumption].
    apply (permutation_covers _ _ _ Hperm). now apply resolves_index in Hres.
Qed.

Lemma fetchJsContents_keys_witness :
  keys (downloaded flaky_world
          [lit "/_next/static/chunks/a.js"; lit "/_next/static/chunks/b.js";
           lit "/_next/static/chunks/c.js"])
  = [lit "/_next/static/chunks/a.js"; lit "/_next/static/chunks/b.js"]
  /\ In (lit "/_next/static/chunks/b.js")
        (keys (downloaded flaky_world
                 [lit "/_next/static/chunks/a.js"; lit "/_next/static/chunks/b.js";
                  lit "/_next/static/chunks/c.js"])).
Proof.
  split; [vm_compute; reflexivity|].
  apply fetchJsContents_keys.
  - change (Permutation [2; 0; 1]%nat [0; 1; 2]%nat).
    apply perm_trans with [0; 2; 1]%nat; [apply perm_swap|].
    apply perm_skip, perm_swap.
  - exists 1%nat, (lit "Not Found"), (lit "/_next/static/chunks/b.js"), 404%N.
    repeat split.
Defined.

Lemma lookup_map {A B} (f : A -> B) (l : list A) i :
  map f l !! i = option_map f (l !! i).
Proof.
  revert i. induction l as [|x l IH]; intros [|i]; cbn; try reflexivity.
  apply IH.
Qed.

Lemma resolves_unique (w : World) scriptPaths j j' name c c' :
  List.NoDup (map strip_hash scriptPaths) ->
  resolves w scriptPaths j name c -> resolves w scriptPaths j' name c' ->
  j = j' /\ c = c'.
Proof.
  intros Hnd (p & s & Hj & Hr & Hn) (p' & s' & Hj' & Hr' & Hn').
  assert (j = j').
  { apply NoDup_ListNoDup in Hnd.
    apply (NoDup_lookup _ _ _ name Hnd); rewrite lookup_map.
    - now rewrite Hj, <- Hn.
    - now rewrite Hj', <- Hn'. }
  subst j'. split; [reflexivity|]. congruence.
Qed.

Lemma downloaded_distinct (w : World) scriptPaths j name content :
  Permutation (completion_order w) (seq 0 (length scriptPaths)) ->
  List.NoDup (map strip_hash scriptPaths) ->
  resolves w scriptPaths j name content ->
  files_get (downloaded w scriptPaths) name = Some content.
Proof.
  intros Hperm Hnd Hres.
  assert (Hin : In j (completion_order w)).
  { apply (permutation_covers _ _ _ Hperm). now apply resolves_index in Hres. }
  assert (Hord : List.NoDup (completion_order w)).
  { apply (Permutation_NoDup (Permutation_sym Hperm)). apply List.seq_NoDup. }
  apply in_split in Hin. destruct Hin as (before & after & Horder).
  apply (downloaded_last_write w scriptPaths before j after name content Horder Hres).
  intros j' c' Hj' Hres'.
  destruct (resolves_unique w scriptPaths j j' name content c' Hnd Hres Hres')
    as [<- _].
  rewrite Horder in Hord. apply NoDup_remove_2 in Hord.
  apply Hord. apply in_or_app. now right.
Qed.

(** X16: when the requested paths have pairwise different canonical names,
    the content the result holds for a name does not depend on the order
    in which the downloads finish: two runs that get the same replies
    return maps with the same lookups. *)
Theorem fetchJsContents_order_independent (w1 w2 : World) scriptPaths name :
  (forall i path, script_reply w1 i path = script_reply w2 i path) ->
  Permutation (completion_order w1) (seq 0 (length scriptPaths)) ->
  Permutation (completion_order w2) (seq 0 (length scriptPaths)) ->
  List.NoDup (map strip_hash scriptPaths) ->
  files_get (downloaded w1 scriptPaths) name
  = files_get (downloaded w2 scriptPaths) name.
Proof.
  intros Hsame Hp1 Hp2 Hnd.
  assert (Hmove : forall wa wb j c,
             (forall i path, script_reply wa i path = script_reply wb i path) ->
             resolves wa scriptPaths j name c -> resolves wb scriptPaths j name c).
  { intros wa wb j c Hab (p & s & Hj & Hr & Hn). exists p, s.
    rewrite <- Hab. auto. }
  destruct (files_get (downloaded w1 scriptPaths) name) as [c1|] eqn:E1.
  - assert (Hs : is_Some (files_get (downloaded w1 scriptPaths) name)) by eauto.
    apply downloaded_only_resolved in Hs. destruct Hs as (j & c & _ & Hres).
    rewrite (downloaded_distinct w1 scriptPaths j name c Hp1 Hnd Hres) in E1.
    injection E1 as <-. symmetry.
    apply (downloaded_distinct w2 scriptPaths j name c Hp2 Hnd).
    now apply (Hmove w1 w2).
  - destruct (files_get (downloaded w2 scriptPaths) name) as [c2|] eqn:E2;
      [|reflexivity].
    assert (Hs : is_Some (files_get (downloaded w2 scriptPaths) name)) by eauto.
    apply downloaded_only_resolved in Hs. destruct Hs as (j & c & _ & Hres).
    assert (Hres1 : resolves w1 scriptPaths j name c)
      by (apply (Hmove w2 w1); [intros; symmetry; apply Hsame | assumption]).
    rewrite (downloaded_distinct w1 scriptPaths j name c Hp1 Hnd Hres1) in E1.
    discriminate.
Qed.

Lemma fetchJsContents_order_independent_witness :
  let w := sample_world sample_page Rejected in
  files_get (downloaded w (match_scripts sample_page))
            (lit "/_next/static/chunks/main.js")
  = files_get (downloaded (reordered w [0; 1]%nat) (match_scripts sample_page))
              (lit "/_next/static/chunks/main.js").
Proof.
  intros w. apply fetchJsContents_order_independent.
  - reflexivity.
  - apply perm_swap.
  - apply Permutation_refl.
  - vm_compute. apply NoDup_cons_iff. split.
    + intros [H|[]]. discriminate.
    + apply NoDup_cons_iff. split; [intros [] | apply List.NoDup_nil].
Defined.

Lemma strip_hash_keeps_prefix prefix rest :
  ~ In DASH prefix -> strip_hash (prefix ++ rest) = prefix ++ strip_hash rest.
Proof.
  induction prefix as [|c prefix IH]; intros Hno; [reflexivity|].
  cbn [app strip_hash].
  replace (hash_suffix_at (c :: prefix ++ rest)) with false.
  - f_equal. apply IH. intros Hin. apply Hno. now right.
  - symmetry. apply not_true_is_false. intros H.
    apply hash_suffix_at_spec in H. destruct H as (h & [= -> _] & _).
    apply Hno. now left.
Qed.

Lemma strip_hash_shape s :
  strip_hash s = s \/ exists stem, strip_hash s = stem ++ DOT_JS.
Proof.
  induction s as [|c rest IH]; [now left|]. cbn [strip_hash].
  destruct (hash_suffix_at (c :: rest)); [right; now exists []|].
  destruct IH as [->|[stem ->]]; [now left|]. right. now exists (c :: stem).
Qed.

(** X17: the keys of the script map of a run are well formed: every key made
    from the script references of a page starts with the chunk directory
    and ends in [.js]. *)
Theorem downloaded_keys_shape (w : World) html name :
  In name (keys (downloaded w (match_scripts html))) ->
  exists stem, name = CHUNK_DIR ++ stem ++ DOT_JS.
Proof.
  intros Hin. apply files_get_keys, downloaded_only_resolved in Hin.
  destruct Hin as (j & content & _ & path & status & Hj & _ & <-).
  apply list_elem_of_lookup_2, list_elem_of_In in Hj.
  apply match_scripts_spec in Hj.
  destruct Hj as (before & s & _ & stem & rest & _ & _ & _ & ->).
  rewrite strip_hash_keeps_prefix by (vm_compute; intuition discriminate).
  destruct (strip_hash_shape (stem ++ DOT_JS)) as [->|[stem' ->]]; eauto.
Qed.

Lemma downloaded_keys_shape_witness :
  exists stem, lit "/_next/static/chunks/app/page.js" = CHUNK_DIR ++ stem ++ DOT_JS.
Proof.
  apply (downloaded_keys_shape (sample_world sample_page Rejected) sample_page).
  vm_compute. left. reflexivity.
Defined.


(** ** The tokenizer *)

Lemma set_has_In s x : set_has s x = true <-> In x s.
Proof.
  unfold set_has. rewrite existsb_exists. split.
  - intros (y & Hin & E). apply jsstring_eqb_true in E. now subst y.
  - intros Hin. exists x. split; [assumption | apply jsstring_eqb_refl].
Qed.

Lemma set_has_false s x : set_has s x = false <-> ~ In x s.
Proof.
  rewrite <- set_has_In. destruct (set_has s x); split; congruence.
Qed.

Lemma fold_set_add_In l acc x :
  In x (fold_left set_add l acc) <-> In x acc \/ In x l.
Proof.
  revert acc. induction l as [|y l IH]; intros acc; cbn [fold_left In].
  - tauto.
  - rewrite IH. unfold set_add. destruct (set_has acc y) eqn:E.
    + apply set_has_In in E. split; [tauto|]. intros [H|[<-|H]]; auto.
    + rewrite in_app_iff. cbn [In]. tauto.
Qed.

Lemma fold_set_add_NoDup l acc :
  List.NoDup acc -> List.NoDup (fold_left set_add l acc).
Proof.
  revert acc. induction l as [|y l IH]; intros acc Hnd; cbn [fold_left];
    [assumption|].
  apply IH. unfold set_add. destruct (set_has acc y) eqn:E; [assumption|].
  apply set_has_false in E. apply NoDup_app_remove_l with (l := []).
  cbn [app]. apply Permutation_NoDup with (l := y :: acc).
  - apply Permutation_cons_append.
  - now apply List.NoDup_cons.
Qed.

Lemma set_from_In l x : In x (set_from l) <-> In x l.
Proof. unfold set_from. rewrite fold_set_add_In. cbn [In]. tauto. Qed.

Lemma list_end {A} (l : list A) : l = [] \/ exists l' x, l = l' ++ [x].
Proof.
  destruct l as [|a l]; [now left|]. right.
  destruct (exists_last (l := a :: l) ltac:(discriminate)) as (l' & x & E).
  eauto.
Qed.

Lemma forallb_In (f : N -> bool) l x : forallb f l = true -> In x l -> f x = true.
Proof. intros H. rewrite forallb_forall in H. apply H. Qed.

(** Two splits of one string at its first separator are the same split. *)
Lemma first_separator run run' c after rest :
  forallb is_token_char run = true -> forallb is_token_char run' = true ->
  is_token_char c = false ->
  (forall d after', after = d :: after' -> is_token_char d = false) ->
  run ++ after = run' ++ c :: rest -> run = run'.
Proof.
  revert run'. induction run as [|y run IH]; intros run' Hrun Hrun' Hc Hafter E.
  - destruct run' as [|x run']; [reflexivity|]. cbn in E.
    cbn [forallb] in Hrun'. rewrite (Hafter x _ E) in Hrun'. discriminate.
  - cbn [forallb] in Hrun. apply andb_prop in Hrun. destruct Hrun as [Hy Hrun].
    destruct run' as [|x run']; cbn in E; injection E as -> E.
    + congruence.
    + cbn [forallb] in Hrun'. apply andb_prop in Hrun'.
      f_equal. apply (IH run'); tauto.
Qed.

(** A prefix that ends in a separator reaches beyond the first separator. *)
Lemma prefix_past_separator before u run c rest :
  forallb is_token_char run = true ->
  before <> [] ->
  (forall before' d, before = before' ++ [d] -> is_token_char d = false) ->
  before ++ u = run ++ c :: rest ->
  exists p, before = run ++ c :: p /\ rest = p ++ u.
Proof.
  revert before. induction run as [|x run IH]; intros before Hrun Hne Hlast E.
  - destruct before as [|y before]; [contradiction|].
    cbn in E. injection E as -> E. now exists before.
  - cbn [forallb] in Hrun. apply andb_prop in Hrun. destruct Hrun as [Hx Hrun].
    destruct before as [|y before]; [contradiction|].
    cbn in E. injection E as -> E.
    destruct before as [|z before].
    + rewrite (Hlast [] x eq_refl) in Hx. discriminate.
    + destruct (IH (z :: before) Hrun ltac:(discriminate)) as (p & Hp & Hrest).
      * intros before' d Hd. apply (Hlast (x :: before') d).
        cbn [app]. now rewrite Hd.
      * assumption.
      * exists p. split; [cbn [app]; now rewrite Hp | assumption].
Qed.

Lemma maximal_run_whole s t :
  forallb is_token_char s = true -> t <> [] ->
  maximal_run s t <-> t = s.
Proof.
  intros Hs Ht. split.
  - intros (before & after & E & _ & Hb & Ha).
    destruct (list_end before) as [->|(b' & c & ->)].
    + destruct after as [|c after]; [now rewrite app_nil_r in E|].
      assert (Hc : is_token_char c = true).
      { apply (forallb_In _ s); [assumption|]. rewrite E.
        apply in_or_app. right. apply in_or_app. right. now left. }
      rewrite (Ha c after eq_refl) in Hc. discriminate.
    + assert (Hc : is_token_char c = true).
      { apply (forallb_In _ s); [assumption|]. rewrite E.
        apply in_or_app. left. apply in_or_app. right. now left. }
      rewrite (Hb b' c eq_refl) in Hc. discriminate.
  - intros ->. exists [], []. rewrite app_nil_r. repeat split; try assumption.
    + intros b' c E. now destruct b'.
    + intros c a' E. discriminate.
Qed.

Lemma maximal_run_split run c rest t :
  forallb is_token_char run = true -> is_token_char c = false -> t <> [] ->
  maximal_run (run ++ c :: rest) t <-> t = run \/ maximal_run rest t.
Proof.
  intros Hrun Hc Ht. split.
  - intros (before & after & E & Htok & Hb & Ha).
    destruct (list_end before) as [->|(b' & d & Hbefore)].
    + left. cbn [app] in E. symmetry in E.
      apply (first_separator t run c after rest); auto.
    + right. symmetry in E.
      destruct (prefix_past_separator before (t ++ after) run c rest)
        as (p & -> & ->); auto.
      { rewrite Hbefore. now destruct b'. }
      exists p, after. repeat split; try assumption.
      intros p' x Hp. apply (Hb (run ++ c :: p') x).
      rewrite Hp. now rewrite <- app_assoc.
  - intros [->|(before & after & -> & Htok & Hb & Ha)].
    + exists [], (c :: rest). repeat split; try assumption.
      * intros b' x E. now destruct b'.
      * now intros x a' [= <- _].
    + exists (run ++ c :: before), after.
      split; [now rewrite <- app_assoc|]. repeat split; try assumption.
      intros b' x E. destruct (list_end before) as [->|(p & y & ->)].
      * assert (E' : run ++ [c] = b' ++ [x]) by exact E.
        apply app_inj_tail in E'. destruct E' as [_ <-]. assumption.
      * assert (E' : (run ++ c :: p) ++ [y] = b' ++ [x])
          by (rewrite <- E, <- app_assoc; reflexivity).
        apply app_inj_tail in E'. destruct E' as [_ <-]. now apply (Hb p y).
Qed.

Lemma split_tokens_runs in_sep acc str t :
  forallb is_token_char acc = true -> (in_sep = true -> acc = []) -> t <> [] ->
  In t (split_tokens in_sep acc str) <-> maximal_run (rev acc ++ str) t.
Proof.
  revert in_sep acc. induction str as [|c rest IH]; intros in_sep acc Hacc Hsep Ht;
    cbn [split_tokens].
  - rewrite app_nil_r, maximal_run_whole; cbn [In]; try assumption.
    + split; [intros [<-|[]]; reflexivity | intros ->; now left].
    + apply forallb_forall. intros x Hx. apply in_rev in Hx.
      now apply (forallb_In _ acc).
  - assert (Hrev : forallb is_token_char (rev acc) = true).
    { apply forallb_forall. intros x Hx. apply in_rev in Hx.
      now apply (forallb_In _ acc). }
    destruct (is_token_char c) eqn:Ec.
    + rewrite IH; try assumption.
      * cbn [rev]. now rewrite <- app_assoc.
      * cbn [forallb]. now rewrite Ec.
      * discriminate.
    + rewrite (maximal_run_split (rev acc) c rest t Hrev Ec Ht).
      destruct in_sep.
      * rewrite (Hsep eq_refl). cbn [rev]. rewrite IH; auto.
        cbn [rev app]. split; [now right|]. intros [->|H]; [contradiction | assumption].
      * cbn [In]. rewrite IH; auto. cbn [rev app].
        split; intros [H|H]; auto.
Qed.

(** X19: the tokenizer returns a set, and its non-empty members are exactly
    the maximal runs of the content over the token characters (ASCII
    letters and digits, underscore, the two quote characters and the CJK
    range): every separator, and only a separator, ends a token. *)
Theorem tokenize_maximal_runs str :
  List.NoDup (tokenize str)
  /\ forall t, t <> [] -> (In t (tokenize str) <-> maximal_run str t).
Proof.
  split.
  - unfold tokenize, set_from. apply fold_set_add_NoDup, List.NoDup_nil.
  - intros t Ht. unfold tokenize. rewrite set_from_In.
    now rewrite (split_tokens_runs false [] str t eq_refl ltac:(intros; reflexivity) Ht).
Qed.

Lemma tokenize_maximal_runs_witness :
  In (lit "euCountry") (tokenize (lit "init(region, euCountry);")).
Proof.
  apply (proj2 (tokenize_maximal_runs (lit "init(region, euCountry);"))
               (lit "euCountry")); [discriminate|].
  exists (lit "init(region, "), (lit ");"). split; [reflexivity|].
  split; [reflexivity|]. split.
  - intros b' c E.
    assert (E' : lit "init(region," ++ [32%N] = b' ++ [c]) by exact E.
    apply app_inj_tail in E'. destruct E' as [_ <-]. reflexivity.
  - intros c a' [= <- _]. reflexivity.
Defined.

(** ** The differ, continued *)

Lemma only_in_spec mine theirs t :
  In t (only_in mine theirs) <->
  In t mine /\ ~ In t theirs /\ (3 < length t)%nat.
Proof.
  unfold only_in. rewrite filter_In, andb_true_iff, negb_true_iff.
  rewrite set_has_false, Nat.ltb_lt. tauto.
Qed.

Lemma only_in_nil mine theirs :
  only_in mine theirs = [] <->
  forall t, (3 < length t)%nat -> In t mine -> In t theirs.
Proof.
  split.
  - intros E t Hlen Hin. destruct (set_has theirs t) eqn:Eh.
    + now apply set_has_In.
    + apply set_has_false in Eh.
      assert (H : In t (only_in mine theirs)) by (apply only_in_spec; tauto).
      rewrite E in H. destruct H.
  - intros H. destruct (only_in mine theirs) as [|t l] eqn:E; [reflexivity|].
    assert (Hin : In t (only_in mine theirs)) by (rewrite E; now left).
    apply only_in_spec in Hin. destruct Hin as (Hm & Hn & Hlen).
    exfalso. apply Hn. now apply H.
Qed.

Lemma length_pos_nil {A} (l : list A) : (0 <? length l)%nat = false <-> l = [].
Proof. destruct l; cbn; split; congruence. Qed.

Lemma diff_entry_silent oldFiles path newContent :
  diff_entry oldFiles path newContent = Silent <->
  exists oldContent,
    files_get oldFiles path = Some oldContent /\ oldContent <> []
    /\ (oldContent = newContent
        \/ forall t, (3 < length t)%nat ->
                     (In t (tokenize newContent) <-> In t (tokenize oldContent))).
Proof.
  unfold diff_entry.
  destruct (files_get oldFiles path) as [[|o old]|].
  - split; [discriminate|]. intros (oc & [= <-] & Hne & _). contradiction.
  - destruct (jsstring_eqb (o :: old) newContent) eqn:E; cbn [negb].
    + apply jsstring_eqb_true in E. split; [|reflexivity].
      intros _. exists (o :: old). split; [reflexivity|].
      split; [discriminate | now left].
    + assert (Hne : o :: old <> newContent).
      { intros H. apply jsstring_eqb_true in H. congruence. }
      set (added := only_in (tokenize newContent) (tokenize (o :: old))).
      set (removed := only_in (tokenize (o :: old)) (tokenize newContent)).
      assert (Hiff : (added = [] /\ removed = []) <->
                     forall t, (3 < length t)%nat ->
                               (In t (tokenize newContent)
                                <-> In t (tokenize (o :: old)))).
      { unfold added, removed. rewrite !only_in_nil. split.
        - intros [H1 H2] t Hlen. split; [apply H1 | apply H2]; assumption.
        - intros H. split; intros t Hlen; apply H; assumption. }
      destruct ((0 <? length added)%nat || (0 <? length removed)%nat) eqn:El.
      * split; [discriminate|]. intros (oc & [= <-] & _ & [H|H]); [contradiction|].
        apply Hiff in H. destruct H as [-> ->]. discriminate.
      * split; [|reflexivity]. intros _. exists (o :: old).
        split; [reflexivity|]. split; [discriminate|]. right.
        apply Hiff. apply orb_false_elim in El. destruct El as [E1 E2].
        split; now apply length_pos_nil.
  - split; [discriminate|]. intros (oc & [= ] & _).
Qed.

Lemma render_entry_head e :
  e = Silent
  \/ exists x tail, render_entry e = NEWLINE :: x :: tail /\ is_js_space x = false.
Proof.
  destruct e as [path|path added removed|]; [right|right|now left].
  - exists 0x5b%N. eexists. split; reflexivity.
  - exists 0x2d%N. eexists. split; reflexivity.
Qed.

Lemma render_entries_head entries :
  Forall (fun e => e = Silent) entries /\ flat_map render_entry entries = []
  \/ exists x tail, flat_map render_entry entries = NEWLINE :: x :: tail
                    /\ is_js_space x = false.
Proof.
  induction entries as [|e entries IH]; [left; split; [constructor | reflexivity]|].
  cbn [flat_map]. destruct (render_entry_head e) as [->|(x & tail & -> & Hx)].
  - destruct IH as [[Hall E]|IH]; [left | now right].
    split; [now constructor | exact E].
  - right. exists x, (tail ++ flat_map render_entry entries). now split.
Qed.

Lemma silent_entries_render entries :
  Forall (fun e => e = Silent) entries -> flat_map render_entry entries = [].
Proof. induction 1 as [|e l -> _ IH]; [reflexivity | exact IH]. Qed.

Lemma generateDiff_head oldFiles newFiles :
  Forall (fun e => e = Silent) (diff_entries oldFiles newFiles)
  /\ generateDiff oldFiles newFiles = []
  \/ exists x tail, generateDiff oldFiles newFiles = NEWLINE :: x :: tail
                    /\ is_js_space x = false.
Proof.
  rewrite generateDiff_entries. unfold substring0.
  destruct (render_entries_head (diff_entries oldFiles newFiles))
    as [[Hall ->]|(x & tail & -> & Hx)].
  - left. now split.
  - right. exists x, (take 2998 tail). split; [|assumption].
    replace 3000%nat with (S (S 2998)) by reflexivity. reflexivity.
Qed.

(** X20: the diff text is empty exactly when every module of the new map is
    known with a non-empty old content that is either the same content or
    has the same tokens longer than three code units.  A module whose old
    content is missing or is the empty string always makes the diff
    non-empty. *)
Theorem generateDiff_empty_iff oldFiles newFiles :
  generateDiff oldFiles newFiles = [] <->
  forall path newContent,
    In (path, newContent) newFiles ->
    exists oldContent,
      files_get oldFiles path = Some oldContent /\ oldContent <> []
      /\ (oldContent = newContent
          \/ forall t, (3 < length t)%nat ->
                       (In t (tokenize newContent) <-> In t (tokenize oldContent))).
Proof.
  assert (Hall : Forall (fun e => e = Silent) (diff_entries oldFiles newFiles) <->
                 forall path newContent,
                   In (path, newContent) newFiles ->
                   diff_entry oldFiles path newContent = Silent).
  { rewrite Forall_forall. unfold diff_entries. split.
    - intros H path c Hin. apply H. apply list_elem_of_In.
      apply in_map_iff. now exists (path, c).
    - intros H e He. apply list_elem_of_In, in_map_iff in He.
      destruct He as ([p c] & <- & Hin). now apply H. }
  split.
  - intros E path c Hin. apply diff_entry_silent.
    destruct (generateDiff_head oldFiles newFiles) as [[Hs _]|(x & tail & E' & _)].
    + now apply (proj1 Hall Hs).
    + rewrite E in E'. discriminate.
  - intros H. rewrite generateDiff_entries.
    assert (Hs : Forall (fun e => e = Silent) (diff_entries oldFiles newFiles)).
    { apply Hall. intros path c Hin. apply diff_entry_silent. now apply H. }
    now rewrite (silent_entries_render _ Hs).
Qed.

Lemma generateDiff_empty_iff_witness :
  generateDiff [(lit "a.js", lit "foo bar")] [(lit "a.js", lit "foo baz qux")] = []
  /\ generateDiff [(lit "a.js", [])] [(lit "a.js", [])] <> [].
Proof.
  split.
  - apply (proj2 (generateDiff_empty_iff _ _)).
    intros path c [[= <- <-]|[]]. exists (lit "foo bar").
    split; [reflexivity|]. split; [discriminate|]. right.
    intros t Hlen. vm_compute.
    split; intros H; repeat (destruct H as [<-|H]; [cbn in Hlen; lia|]);
      destruct H.
  - intros E. pose proof (proj1 (generateDiff_empty_iff _ _) E (lit "a.js") []) as H.
    destruct H as (oc & Hget & Hne & _); [now left|].
    vm_compute in Hget. injection Hget as <-. contradiction.
Defined.

(** X21: fed with the diff of two script maps, the summariser calls the
    endpoint exactly when the diff text is not empty: an empty diff gives
    the fixed sentence with no request, and a non-empty diff, which starts
    with a line break and a bracket or a dash and so is never blank, is
    sent in one request. *)
Theorem getAIPatchSummary_of_diff (w : World) oldFiles newFiles st :
  let diffText := generateDiff oldFiles newFiles in
  (diffText = [] ->
   getAIPatchSummary w diffText st = (Returned FALLBACK_TRIVIAL, st))
  /\ (diffText <> [] ->
      exists rest,
        snd (getAIPatchSummary w diffText st)
        = add_trace st (PostSummarizer (PROMPT_HEAD ++ diffText) :: rest)
        /\ forallb no_call rest = true).
Proof.
  intros diffText. split.
  - intros ->. reflexivity.
  - intros Hne.
    assert (Hblank : forallb is_js_space diffText = false).
    { unfold diffText in *.
      destruct (generateDiff_head oldFiles newFiles) as [[_ E]|(x & tail & -> & Hx)];
        [contradiction|].
      cbn [forallb]. rewrite Hx. now rewrite andb_false_r. }
    destruct (getAIPatchSummary_calls w diffText Hblank) as (rest & E & Hrest).
    exists rest. split; [|assumption].
    now rewrite getAIPatchSummary_run, E.
Qed.

Lemma getAIPatchSummary_of_diff_witness :
  exists rest,
    snd (getAIPatchSummary (sample_world sample_page Rejected)
           (generateDiff [] [(lit "b.js", lit "x")]) initial)
    = add_trace initial
        (PostSummarizer (PROMPT_HEAD ++ generateDiff [] [(lit "b.js", lit "x")])
         :: rest)
    /\ forallb no_call rest = true.
Proof.
  apply (proj2 (getAIPatchSummary_of_diff _ [] [(lit "b.js", lit "x")] initial)).
  vm_compute. discriminate.
Defined.

(** X22: in a changed-module entry the added tokens are the tokens of the
    new content, longer than three code units, that the old content does
    not have, and the removed tokens are the same with the two contents
    exchanged; the contents differ, one of the two lists is not empty, and
    no token is listed as both added and removed. *)
Theorem changed_module_tokens oldFiles newFiles path added removed :
  In (ChangedModule path added removed) (diff_entries oldFiles newFiles) ->
  exists oldContent newContent,
    In (path, newContent) newFiles
    /\ files_get oldFiles path = Some oldContent
    /\ oldContent <> newContent
    /\ (forall t, In t added <->
                  In t (tokenize newContent) /\ ~ In t (tokenize oldContent)
                  /\ (3 < length t)%nat)
    /\ (forall t, In t removed <->
                  In t (tokenize oldContent) /\ ~ In t (tokenize newContent)
                  /\ (3 < length t)%nat)
    /\ (added <> [] \/ removed <> [])
    /\ (forall t, In t added -> ~ In t removed).
Proof.
  intros He. unfold diff_entries in He. apply in_map_iff in He.
  destruct He as ([p c] & E & Hin). unfold diff_entry in E.
  destruct (files_get oldFiles p) as [[|o old]|] eqn:Hget; try discriminate.
  destruct (jsstring_eqb (o :: old) c) eqn:Eq; cbn [negb] in E; try discriminate.
  destruct ((0 <? length (only_in (tokenize c) (tokenize (o :: old))))%nat
            || (0 <? length (only_in (tokenize (o :: old)) (tokenize c)))%nat)
    eqn:El; try discriminate.
  injection E as <- <- <-.
  exists (o :: old), c. split; [assumption|]. split; [assumption|].
  split; [intros H; apply jsstring_eqb_true in H; congruence|].
  split; [intros t; apply only_in_spec|]. split; [intros t; apply only_in_spec|].
  split.
  - apply orb_prop in El.
    destruct El as [H|H]; [left | right]; intros E'; rewrite E' in H; discriminate.
  - intros t Ha Hr. apply only_in_spec in Ha. apply only_in_spec in Hr. tauto.
Qed.

Lemma changed_module_tokens_witness :
  exists oldContent newContent,
    In (lit "a.js", newContent) [(lit "a.js", lit "init(region, euCountry)")]
    /\ files_get [(lit "a.js", lit "init(region)")] (lit "a.js") = Some oldContent
    /\ oldContent <> newContent.
Proof.
  destruct (changed_module_tokens
              [(lit "a.js", lit "init(region)")]
              [(lit "a.js", lit "init(region, euCountry)")]
              (lit "a.js") [lit "euCountry"] [])
    as (o & c & H1 & H2 & H3 & _).
  - vm_compute. left. reflexivity.
  - exists o, c. auto.
Defined.

(** ** Closed instances of the run properties *)


Lemma checkTask_notifies_transitions_witness :
  let w := sample_world sample_page (Replied 204 None) in
  sample_store !! "LAST_BUILD_ID"%string = Some (lit "build-1")
  /\ lit "build-1" <> lit "build-2".
Proof.
  intros w.
  destruct (checkTask_notifies_transitions (json := sample_codec) w
              (state_of sample_store)) as (events & Htrace & _ & Hcall).
  cbn [state_of trace app] in Htrace. subst events.
  destruct (Hcall (lit "build-1") (lit "build-2") (lit "adds a country check"))
    as (Hold & _ & Hne & _).
  - vm_compute. do 9 right. left. reflexivity.
  - split; [exact Hold | exact Hne].
Defined.

Lemma checkTask_prompt_bound_witness :
  let w := sample_world sample_page (Replied 204 None) in
  let prompt :=
    PROMPT_HEAD ++ generateDiff (stored_files (json := sample_codec) sample_store)
                      (downloaded w (match_scripts sample_page)) in
  (length prompt <= 3137)%nat.
Proof.
  intros w prompt.
  destruct (checkTask_prompt_bound (json := sample_codec) w (state_of sample_store))
    as (events & Htrace & Hprompt & _).
  cbn [state_of trace app] in Htrace. subst events.
  destruct (Hprompt prompt) as (diffText & _ & _ & _ & Hlen).
  - vm_compute. do 8 right. left. reflexivity.
  - exact Hlen.
Defined.

Lemma getAIPatchSummary_safe_witness :
  exists summary events,
    getAIPatchSummary (reordered colliding_world []) (lit "changed") initial
    = (Returned summary, add_trace initial events)
    /\ summary <> [].
Proof.
  destruct (getAIPatchSummary_safe (reordered colliding_world []) (lit "changed")
              initial) as (summary & events & E & Hne & _).
  exists summary, events. split; assumption.
Defined.

